(** * vault-code terminal helpers: a shallow embedding and its properties

    The repository ships three variants of one PTY relay helper:

    - [scripts/terminal_pty.py]  POSIX, scans a chunk for resize directives
      anywhere (module [ScriptsPty]);
    - [terminal_pty.py]          POSIX, looks for a directive only at the
      start of a chunk (module [TerminalPty]);
    - [terminal_win.py]          Windows, reads host input byte by byte and
      filters the PTY output (module [TerminalWin]).

    The Python built-ins the helpers call ([bytes.index], [bytes.decode],
    [str.split], [int], [struct.pack], [os.waitstatus_to_exitcode], [re.sub])
    are embedded in module [Py]. *)

From Stdlib Require Import ZArith NArith List Lia Bool.
From Stdlib Require Import Init.Byte Strings.Byte Strings.String.
From stdpp Require Import base list.
Import ListNotations.

(** ** Python built-ins *)

Module Py.

Definition bytes := list byte.

(** A Python [str] is a sequence of Unicode code points. *)
Definition str := list N.

(** Exceptions that the helpers can meet. [UnicodeDecodeError] is a subclass
    of [ValueError] and [select.error] is an alias of [OSError], so neither
    has a constructor of its own; [struct.error] derives from [Exception]
    only. *)
Inductive exn :=
| ValueError
| OSError
| StructError
| ChildProcessError
| SystemExit (code : Z).

(** The result of running a piece of Python: a value, a raised exception, or
    [Fuel] when the step budget given to a loop of the embedding ran out
    before the loop ended. No handler catches [Fuel]. *)
Inductive res (A : Type) :=
| Ok (a : A)
| Raise (e : exn)
| Fuel.
Arguments Ok {A} a.
Arguments Raise {A} e.
Arguments Fuel {A}.

Global Instance res_ret : MRet res := fun A a => Ok a.
Global Instance res_bind : MBind res := fun A B k m =>
  match m with
  | Ok a => k a
  | Raise e => Raise e
  | Fuel => Fuel
  end.

(** [c, r = parts]: unpacking into exactly two targets. *)
Definition unpack2 {A} (parts : list A) : res (A * A) :=
  match parts with
  | [c; r] => Ok (c, r)
  | _ => Raise ValueError
  end.

(** What a system call hands back: a value, or [OSError]. *)
Inductive sys (A : Type) :=
| Returns (a : A)
| Fails.
Arguments Returns {A} a.
Arguments Fails {A}.

(** *** bytes *)

Definition ESC : byte := x1b.
Definition BEL : byte := x07.

Definition b (s : string) : bytes := list_byte_of_string s.

(** [data.startswith(pat)] *)
Fixpoint startswith (pat data : bytes) : bool :=
  match pat, data with
  | [], _ => true
  | p :: pat', d :: data' => Byte.eqb p d && startswith pat' data'
  | _ :: _, [] => false
  end.

(** [data.find(pat)]: offset of the first occurrence. *)
Fixpoint find (pat data : bytes) : option nat :=
  if startswith pat data then Some 0%nat
  else match data with
       | [] => None
       | _ :: data' => option_map S (find pat data')
       end.

(** [pat in data] *)
Definition contains (pat data : bytes) : bool :=
  match find pat data with Some _ => true | None => false end.

(** [data.index(pat, start)]: raises [ValueError] when there is no
    occurrence at or after [start]. *)
Definition index (pat : bytes) (start : nat) (data : bytes) : res nat :=
  match find pat (drop start data) with
  | Some i => Ok (start + i)%nat
  | None => Raise ValueError
  end.

(** [data[lo:hi]] for non-negative bounds. *)
Definition slice (lo hi : nat) (data : bytes) : bytes :=
  take (hi - lo) (drop lo data).

(** *** UTF-8 *)

Definition is_cont (c : N) : bool := ((128 <=? c) && (c <? 192))%N.

(** Which second bytes the decoder accepts after a three or four byte lead:
    it refuses overlong forms, surrogates and code points above U+10FFFF. *)
Definition second_ok (lead c : N) : bool :=
  (is_cont c
   && (negb (lead =? 224) || (160 <=? c))
   && (negb (lead =? 237) || (c <? 160))
   && (negb (lead =? 240) || (144 <=? c))
   && (negb (lead =? 244) || (c <? 144)))%N.

Inductive utf8_item :=
| Char (cp : N)
| Bad.

Definition low6 (c : N) : N := N.land c 63.

(** One step of CPython's UTF-8 decoder at lead byte [b0]: the item it
    produces and how many bytes it covers. A malformed or truncated sequence
    yields [Bad] covering its longest well-formed prefix. *)
Definition utf8_step (b0 : byte) (rest : bytes) : utf8_item * nat :=
  let c0 := Byte.to_N b0 in
  if (c0 <? 128)%N then (Char c0, 1%nat)
  else if (c0 <? 194)%N then (Bad, 1%nat)
  else if (c0 <? 224)%N then
    match rest with
    | b1 :: _ =>
        let c1 := Byte.to_N b1 in
        if is_cont c1
        then (Char (N.lor (N.shiftl (N.land c0 31) 6) (low6 c1)), 2%nat)
        else (Bad, 1%nat)
    | [] => (Bad, 1%nat)
    end
  else if (c0 <? 240)%N then
    match rest with
    | b1 :: r1 =>
        let c1 := Byte.to_N b1 in
        if negb (second_ok c0 c1) then (Bad, 1%nat)
        else match r1 with
             | b2 :: _ =>
                 let c2 := Byte.to_N b2 in
                 if is_cont c2
                 then (Char (N.lor (N.shiftl (N.land c0 15) 12)
                               (N.lor (N.shiftl (low6 c1) 6) (low6 c2))), 3%nat)
                 else (Bad, 2%nat)
             | [] => (Bad, 2%nat)
             end
    | [] => (Bad, 1%nat)
    end
  else if (c0 <? 245)%N then
    match rest with
    | b1 :: r1 =>
        let c1 := Byte.to_N b1 in
        if negb (second_ok c0 c1) then (Bad, 1%nat)
        else match r1 with
             | b2 :: r2 =>
                 let c2 := Byte.to_N b2 in
                 if negb (is_cont c2) then (Bad, 2%nat)
                 else match r2 with
                      | b3 :: _ =>
                          let c3 := Byte.to_N b3 in
                          if is_cont c3
                          then (Char (N.lor (N.shiftl (N.land c0 7) 18)
                                        (N.lor (N.shiftl (low6 c1) 12)
                                           (N.lor (N.shiftl (low6 c2) 6) (low6 c3)))),
                                4%nat)
                          else (Bad, 3%nat)
                      | [] => (Bad, 3%nat)
                      end
             | [] => (Bad, 2%nat)
             end
    | [] => (Bad, 1%nat)
    end
  else (Bad, 1%nat).

(** The decoder's run over the data; [skip] counts bytes already covered by
    the item in progress. *)
Fixpoint utf8_items (skip : nat) (data : bytes) : list utf8_item :=
  match data with
  | [] => []
  | b0 :: rest =>
      match skip with
      | S k => utf8_items k rest
      | O => let '(it, n) := utf8_step b0 rest in
             it :: utf8_items (n - 1) rest
      end
  end.

Fixpoint strict_chars (its : list utf8_item) : option str :=
  match its with
  | [] => Some []
  | Char c :: its' => option_map (cons c) (strict_chars its')
  | Bad :: _ => None
  end.

(** [data.decode()]: strict UTF-8. *)
Definition decode (data : bytes) : res str :=
  match strict_chars (utf8_items 0 data) with
  | Some s => Ok s
  | None => Raise ValueError
  end.

(** [data.decode('utf-8', errors='replace')] *)
Definition decode_replace (data : bytes) : str :=
  map (fun it => match it with Char c => c | Bad => 65533%N end)
      (utf8_items 0 data).

(** *** str *)

(** [s.split(sep)] for a one-character separator. *)
Fixpoint split (sep : N) (s : str) : list str :=
  match s with
  | [] => [[]]
  | c :: s' =>
      if (c =? sep)%N then [] :: split sep s'
      else match split sep s' with
           | p :: ps => (c :: p) :: ps
           | [] => [[c]]
           end
  end.

Fixpoint lstrip (ch : N) (s : str) : str :=
  match s with
  | c :: s' => if (c =? ch)%N then lstrip ch s' else s
  | [] => []
  end.

(** [s.strip(ch)] for a one-character set. *)
Definition strip (ch : N) (s : str) : str :=
  rev (lstrip ch (rev (lstrip ch s))).

(** *** int *)

(** The part of the Unicode character database that [int] consults for
    characters outside ASCII: [Py_UNICODE_ISSPACE] and
    [Py_UNICODE_TODECIMAL]. The tables belong to the interpreter, so the
    embedding takes them as a parameter. *)
Class UnicodeDB := {
  unicode_isspace : N -> bool;
  unicode_todecimal : N -> option N
}.

(** The restriction of the database to Latin-1: NEL and NBSP are white
    space, and no Latin-1 character outside ASCII is a decimal digit. *)
Definition latin1_db : UnicodeDB := {|
  unicode_isspace := fun c => ((c =? 133) || (c =? 160))%N;
  unicode_todecimal := fun _ => None
|}.

(** [Py_ISSPACE] *)
Definition is_space (c : N) : bool := (((9 <=? c) && (c <=? 13)) || (c =? 32))%N.
Definition is_digit (c : N) : bool := ((48 <=? c) && (c <=? 57))%N.

Fixpoint skip_spaces (s : str) : str :=
  match s with
  | c :: s' => if is_space c then skip_spaces s' else s
  | [] => []
  end.

(** The run of digits and underscores scanned by [long_from_string_base]:
    its value, its number of digits and the rest of the text. Two
    underscores in a row or a trailing underscore are refused. *)
Fixpoint digit_run (prev_us : bool) (acc : N) (ndigits : nat) (s : str)
  : option (N * nat * str) :=
  match s with
  | c :: s' =>
      if is_digit c then digit_run false (10 * acc + (c - 48))%N (S ndigits) s'
      else if (c =? 95)%N then
        if prev_us then None else digit_run true acc ndigits s'
      else if prev_us then None else Some (acc, ndigits, s)
  | [] => if prev_us then None else Some (acc, ndigits, [])
  end.

(** [sys.int_info.default_max_str_digits] *)
Definition max_str_digits : nat := 4300.

(** [PyLong_FromString(text, base=10)] on ASCII text; [None] is
    [ValueError]. *)
Definition long_from_string (s : str) : option Z :=
  let s1 := skip_spaces s in
  let '(neg, s2) :=
    match s1 with
    | c :: t => if (c =? 43)%N then (false, t)
                else if (c =? 45)%N then (true, t)
                else (false, s1)
    | [] => (false, s1)
    end in
  match s2 with
  | c :: _ => if (c =? 95)%N then None else
      match digit_run false 0 0 s2 with
      | Some (v, n, s3) =>
          if (n =? 0)%nat then None
          else if (max_str_digits <? n)%nat then None
          else match skip_spaces s3 with
               | [] => Some (if neg then (- Z.of_N v)%Z else Z.of_N v)
               | _ :: _ => None
               end
      | None => None
      end
  | [] => None
  end.

Section Int.
Context `{UnicodeDB}.

(** [_PyUnicode_TransformDecimalAndSpaceToASCII] on text with a character
    outside ASCII: [None] when some character is neither ASCII, white space
    nor a decimal digit (the conversion then fails on the ['?'] it leaves). *)
Fixpoint transform_decimal_and_space (s : str) : option str :=
  match s with
  | [] => Some []
  | c :: s' =>
      if (c <? 127)%N then option_map (cons c) (transform_decimal_and_space s')
      else if unicode_isspace c
      then option_map (cons 32%N) (transform_decimal_and_space s')
      else match unicode_todecimal c with
           | Some d => option_map (cons (48 + d)%N) (transform_decimal_and_space s')
           | None => None
           end
  end.

Definition is_ascii (s : str) : bool := forallb (fun c => (c <? 128)%N) s.

(** [int(s)] for a [str] argument. *)
Definition int (s : str) : res Z :=
  let text := if is_ascii s then Some s else transform_decimal_and_space s in
  match text with
  | Some t => match long_from_string t with
              | Some z => Ok z
              | None => Raise ValueError
              end
  | None => Raise ValueError
  end.

End Int.

(** *** struct and the terminal driver *)

(** [struct.pack('H', v)] in native (little-endian) byte order. *)
Definition pack_H (v : Z) : res (list Z) :=
  if ((0 <=? v) && (v <=? 65535))%Z
  then Ok [Z.land v 255; Z.shiftr v 8]
  else Raise StructError.

(** [struct.pack('HHHH', rows, cols, 0, 0)] *)
Definition pack_HHHH (v1 v2 v3 v4 : Z) : res (list Z) :=
  p1 ← pack_H v1; p2 ← pack_H v2; p3 ← pack_H v3; p4 ← pack_H v4;
  Ok (p1 ++ p2 ++ p3 ++ p4).

(** How the terminal driver reads an unsigned short of [struct winsize]. *)
Definition unpack_H (lo hi : Z) : Z := Z.lor lo (Z.shiftl hi 8).

(** *** wait status *)

Definition WIFEXITED (status : Z) : bool := (Z.land status 127 =? 0)%Z.
Definition WEXITSTATUS (status : Z) : Z := Z.shiftr (Z.land status 65280) 8.
Definition WTERMSIG (status : Z) : Z := Z.land status 127.
Definition WIFSIGNALED (status : Z) : bool :=
  negb (WIFEXITED status) && negb (Z.land status 127 =? 127)%Z.

(** [os.waitstatus_to_exitcode(status)] *)
Definition waitstatus_to_exitcode (status : Z) : res Z :=
  if WIFEXITED status then Ok (WEXITSTATUS status)
  else if WIFSIGNALED status then Ok (- WTERMSIG status)%Z
  else Raise ValueError.

(** The exit status the operating system reports for a Python process that
    ends with [sys.exit(code)]. *)
Definition exit_status (code : Z) : Z := Z.land code 255.

(** How the helper process stands: still in its loop, ended with an exit
    status, or [Stuck] when the embedding ran out of fuel. *)
Inductive proc :=
| Running
| Exited (status : Z)
| Stuck.

(** [a == b] on bytes objects. *)
Definition bytes_eqb (x y : bytes) : bool :=
  (length x =? length y)%nat && startswith x y.

(** *** re *)

(** ASCII lower case, which is what [re.IGNORECASE] folds to in a bytes
    pattern. *)
Definition tolower (c : byte) : byte :=
  let n := Byte.to_N c in
  if ((65 <=? n) && (n <=? 90))%N
  then match Byte.of_N (n + 32) with Some l => l | None => c end
  else c.

Fixpoint startswith_ci (pat data : bytes) : bool :=
  match pat, data with
  | [], _ => true
  | p :: pat', d :: data' =>
      Byte.eqb (tolower p) (tolower d) && startswith_ci pat' data'
  | _ :: _, [] => false
  end.

(** The length of the longest prefix made of [0-9]. *)
Fixpoint digits_span (data : bytes) : nat :=
  match data with
  | d :: data' => if is_digit (Byte.to_N d) then S (digits_span data') else O
  | [] => O
  end.

(** [pattern.sub(b'', data)] for a pattern that matches no empty string:
    [matcher] gives the length of the match at the head of its argument.
    [skip] counts the bytes of the current match still to be dropped. *)
Fixpoint re_sub (matcher : bytes -> option nat) (skip : nat) (data : bytes)
  : bytes :=
  match data with
  | [] => []
  | d :: rest =>
      match skip with
      | S k => re_sub matcher k rest
      | O => match matcher data with
             | Some (S k) => re_sub matcher k rest
             | _ => d :: re_sub matcher 0 rest
             end
      end
  end.

(** A pattern that is a plain byte string. *)
Definition literal (pat data : bytes) : option nat :=
  if startswith pat data then Some (length pat) else None.

(** No match of the pattern starts at any place of the data. *)
Fixpoint no_match (matcher : bytes -> option nat) (data : bytes) : bool :=
  match data with
  | [] => true
  | _ :: rest =>
      match matcher data with
      | None => no_match matcher rest
      | Some _ => false
      end
  end.

End Py.

(** ** What the POSIX variants share *)

Module Posix.
Import Py.

(** The introducer [b'\x1b]RESIZE;'] of a resize directive. *)
Definition RESIZE : bytes := Eval cbv in ESC :: b "]RESIZE;".

(** [os.O_NONBLOCK], with its value on Linux. *)
Definition O_NONBLOCK : Z := 2048.

(** The part of the world the relay acts on. [applied] is the history of
    the sizes that [TIOCSWINSZ] installed, oldest first; [pty_in] and
    [host_out] collect what was written to the PTY master and to standard
    output. *)
Record session := {
  winsize : Z * Z;           (* (ws_col, ws_row) of the PTY device *)
  applied : list (Z * Z);
  pty_in : bytes;
  host_out : bytes;
  stdin_flags : Z
}.

Definition with_winsize (cr : Z * Z) (s : session) : session :=
  {| winsize := cr; applied := applied s ++ [cr]; pty_in := pty_in s;
     host_out := host_out s; stdin_flags := stdin_flags s |}.

Definition write_pty (data : bytes) (s : session) : session :=
  {| winsize := winsize s; applied := applied s; pty_in := pty_in s ++ data;
     host_out := host_out s; stdin_flags := stdin_flags s |}.

Definition write_host (data : bytes) (s : session) : session :=
  {| winsize := winsize s; applied := applied s; pty_in := pty_in s;
     host_out := host_out s ++ data; stdin_flags := stdin_flags s |}.

(** [fcntl.fcntl(stdin_fd, fcntl.F_SETFL, flags)] *)
Definition set_stdin_flags (flags : Z) (s : session) : session :=
  {| winsize := winsize s; applied := applied s; pty_in := pty_in s;
     host_out := host_out s; stdin_flags := flags |}.

(** [TIOCSWINSZ]: the driver reads [ws_row] and [ws_col] from the first two
    unsigned shorts of the structure. *)
Definition TIOCSWINSZ (winsz : list Z) (s : session) : session :=
  match winsz with
  | r0 :: r1 :: c0 :: c1 :: _ => with_winsize (unpack_H c0 c1, unpack_H r0 r1) s
  | _ => s
  end.

(** [set_size(fd, cols, rows)]; [io] is the outcome of the [ioctl] call. *)
Definition set_size (io : sys unit) (cols rows : Z) (s : session)
  : res unit * session :=
  match pack_HHHH rows cols 0 0 with
  | Ok winsz =>
      match io with
      | Returns _ => (Ok tt, TIOCSWINSZ winsz s)
      | Fails => (Raise OSError, s)
      end
  | Raise e => (Raise e, s)
  | Fuel => (Fuel, s)
  end.

(** [os.waitpid(pid, os.WNOHANG)]: [(0, 0)] while the child runs,
    [(pid, status)] once it has ended, [ChildProcessError] when there is no
    child to wait for. *)
Inductive waited :=
| StillRunning
| Reaped (status : Z)
| NoChild.

(** What the operating system answers during one turn of the [while] loop.
    Each field is consulted only if the turn reaches the call. *)
Record tick := {
  t_select : sys (bool * bool);   (* is [fd] ready, is [stdin_fd] ready *)
  t_read_pty : sys bytes;         (* os.read(fd, 16384) *)
  t_write_out : sys unit;         (* os.write(stdout) and flush *)
  t_read_in : sys bytes;          (* os.read(stdin_fd, 16384) *)
  t_ioctl : sys unit;             (* the ioctl of set_size *)
  t_write_pty : sys unit;         (* os.write(fd, data) *)
  t_waitpid : waited
}.

(** How the [while] loop was left. [Pending]: the answers ran out and the
    loop is still turning. *)
Inductive loop_end :=
| Broke
| Raised (e : exn)
| NoFuel
| Pending.

(** The status of the process once the interpreter unwinds: [0] when [main]
    returns, the argument of [sys.exit], [1] after a traceback. *)
Definition proc_of (e : loop_end) : proc :=
  match e with
  | Broke => Exited 0
  | Raised (SystemExit code) => Exited (exit_status code)
  | Raised _ => Exited 1
  | NoFuel => Stuck
  | Pending => Running
  end.

(** Lines 92-97 (82-87): the check that the child has exited. [None]: go on
    with the loop. *)
Definition check_child (w : waited) : option loop_end :=
  match w with
  | NoChild => Some Broke
  | Reaped status =>
      match waitstatus_to_exitcode status with
      | Ok code => Some (Raised (SystemExit code))
      | Raise e => Some (Raised e)
      | Fuel => Some NoFuel
      end
  | StillRunning => None
  end.

(** The device as [pty.fork()] leaves it, with the flags of standard input
    as the helper finds them. *)
Definition fresh (flags : Z) : session :=
  {| winsize := (0, 0)%Z; applied := []; pty_in := []; host_out := [];
     stdin_flags := flags |}.

Section Directive.
Context `{UnicodeDB}.

(** [resize_data = payload.decode(); c, r = resize_data.split(';')] and
    then [int(c)], [int(r)], the arguments of the call of [set_size]. *)
Definition parse_payload (payload : bytes) : res (Z * Z) :=
  resize_data ← decode payload;
  '(c, r) ← unpack2 (split 59 resize_data);
  c ← int c;
  r ← int r;
  Ok (c, r).

(** The first lines of the [try] block, for the introducer at [start]:
    [end = data.index(b'\x07', start)], then the payload
    [data[start+9:end]] parsed. *)
Definition directive_at (start : nat) (data : bytes) : res (nat * Z * Z) :=
  end_ ← index [BEL] start data;
  '(c, r) ← parse_payload (slice (start + 9) end_ data);
  Ok (end_, c, r).

End Directive.

End Posix.

(** ** scripts/terminal_pty.py *)

Module ScriptsPty.
Import Py Posix.

Section Relay.
Context `{UnicodeDB}.

(** Lines 77-82, the body of the [try]: the chunk without the directive
    that starts at [start]. *)
Definition resize_at (io : sys unit) (start : nat) (data : bytes) (s : session)
  : res bytes * session :=
  match directive_at start data with
  | Ok (end_, c, r) =>
      match set_size io c r s with
      | (Ok _, s') => (Ok (take start data ++ drop (end_ + 1) data), s')
      | (Raise e, s') => (Raise e, s')
      | (Fuel, s') => (Fuel, s')
      end
  | Raise e => (Raise e, s)
  | Fuel => (Fuel, s)
  end.

(** Lines 74-84: [while b'\x1b]RESIZE;' in data]. A [ValueError] leaves the
    loop with the data as they are; any other exception goes on up. *)
Fixpoint scan (fuel : nat) (io : sys unit) (data : bytes) (s : session)
  : res bytes * session :=
  match find RESIZE data with
  | None => (Ok data, s)
  | Some start =>
      match fuel with
      | O => (Fuel, s)
      | S fuel' =>
          match resize_at io start data s with
          | (Ok data', s') => scan fuel' io data' s'
          | (Raise ValueError, s') => (Ok data, s')
          | (Raise e, s') => (Raise e, s')
          | (Fuel, s') => (Fuel, s')
          end
      end
  end.

(** Lines 72-86: what is done with a non-empty chunk of host input. No turn
    of [scan] needs more fuel than the chunk has bytes. *)
Definition strip_resize (io : sys unit) (data : bytes) (s : session)
  : res bytes * session :=
  scan (length data) io data s.

(** Lines 54-64: [ready_fd == fd]. The result is the new value of
    [running]; the [for] loop is left when it is [false]. *)
Definition on_pty (t : tick) (s : session) : bool * session :=
  match t_read_pty t with
  | Returns [] => (false, s)
  | Returns data =>
      match t_write_out t with
      | Returns _ => (true, write_host data s)
      | Fails => (false, s)
      end
  | Fails => (false, s)
  end.

(** Lines 65-89: [ready_fd == stdin_fd]. *)
Definition on_stdin (t : tick) (s : session) : res bool * session :=
  match t_read_in t with
  | Returns [] => (Ok false, s)
  | Returns data =>
      match strip_resize (t_ioctl t) data s with
      | (Ok [], s') => (Ok true, s')
      | (Ok data', s') =>
          match t_write_pty t with
          | Returns _ => (Ok true, write_pty data' s')
          | Fails => (Ok false, s')
          end
      | (Raise OSError, s') => (Ok false, s')
      | (Raise e, s') => (Raise e, s')
      | (Fuel, s') => (Fuel, s')
      end
  | Fails => (Ok false, s)
  end.

(** Lines 53-89: [for ready_fd in rlist]. *)
Definition serve (t : tick) (ready : bool * bool) (s : session)
  : res bool * session :=
  let '(running, s1) := if ready.1 then on_pty t s else (true, s) in
  if running && ready.2 then on_stdin t s1 else (Ok running, s1).

(** Lines 47-97: one turn of [while running]. [None]: the loop goes on. *)
Definition turn (t : tick) (s : session) : option loop_end * session :=
  match t_select t with
  | Fails => (Some Broke, s)
  | Returns ready =>
      match serve t ready s with
      | (Ok running, s') =>
          match check_child (t_waitpid t) with
          | Some e => (Some e, s')
          | None => (if running then None else Some Broke, s')
          end
      | (Raise e, s') => (Some (Raised e), s')
      | (Fuel, s') => (Some NoFuel, s')
      end
  end.

Fixpoint loop (ticks : list tick) (s : session) : loop_end * session :=
  match ticks with
  | [] => (Pending, s)
  | t :: ticks' =>
      match turn t s with
      | (None, s') => loop ticks' s'
      | (Some e, s') => (e, s')
      end
  end.

(** Lines 37-99 of [main], after the arguments are parsed and the shell is
    forked: [boot] answers the first [ioctl], [ticks] the loop. The
    [finally] clause runs whenever the [try] statement is left. *)
Definition main (cols rows : Z) (boot : sys unit) (ticks : list tick)
    (s0 : session) : proc * session :=
  match set_size boot cols rows s0 with
  | (Ok _, s1) =>
      let old_flags := stdin_flags s1 in
      let s2 := set_stdin_flags (Z.lor old_flags O_NONBLOCK) s1 in
      match loop ticks s2 with
      | (Pending, s3) => (Running, s3)
      | (e, s3) => (proc_of e, set_stdin_flags old_flags s3)
      end
  | (Raise e, s1) => (proc_of (Raised e), s1)
  | (Fuel, s1) => (Stuck, s1)
  end.

End Relay.
End ScriptsPty.

(** ** terminal_pty.py *)

Module TerminalPty.
Import Py Posix.

Section Relay.
Context `{UnicodeDB}.

(** Lines 68-73, the body of the [try]: the chunk after the directive at
    its start. *)
Definition resize_head (io : sys unit) (data : bytes) (s : session)
  : res bytes * session :=
  match directive_at 0 data with
  | Ok (end_, c, r) =>
      match set_size io c r s with
      | (Ok _, s') => (Ok (drop (end_ + 1) data), s')
      | (Raise e, s') => (Raise e, s')
      | (Fuel, s') => (Fuel, s')
      end
  | Raise e => (Raise e, s)
  | Fuel => (Fuel, s)
  end.

(** Lines 67-75: [if data.startswith(b'\x1b]RESIZE;')]. *)
Definition strip_resize (io : sys unit) (data : bytes) (s : session)
  : res bytes * session :=
  if startswith RESIZE data then
    match resize_head io data s with
    | (Raise ValueError, s') => (Ok data, s')
    | r => r
    end
  else (Ok data, s).

(** Lines 53-61: [ready_fd == fd]; [false] leaves the [for] loop. *)
Definition on_pty (t : tick) (s : session) : bool * session :=
  match t_read_pty t with
  | Returns [] => (false, s)
  | Returns data =>
      match t_write_out t with
      | Returns _ => (true, write_host data s)
      | Fails => (false, s)
      end
  | Fails => (false, s)
  end.

(** Lines 62-79: [ready_fd == stdin_fd]. *)
Definition on_stdin (t : tick) (s : session) : res unit * session :=
  match t_read_in t with
  | Returns [] => (Ok tt, s)
  | Returns data =>
      match strip_resize (t_ioctl t) data s with
      | (Ok [], s') => (Ok tt, s')
      | (Ok data', s') =>
          match t_write_pty t with
          | Returns _ => (Ok tt, write_pty data' s')
          | Fails => (Ok tt, s')
          end
      | (Raise OSError, s') => (Ok tt, s')
      | (Raise e, s') => (Raise e, s')
      | (Fuel, s') => (Fuel, s')
      end
  | Fails => (Ok tt, s)
  end.

(** Lines 52-79: [for ready_fd in rlist]. *)
Definition serve (t : tick) (ready : bool * bool) (s : session)
  : res unit * session :=
  let '(go_on, s1) := if ready.1 then on_pty t s else (true, s) in
  if go_on && ready.2 then on_stdin t s1 else (Ok tt, s1).

(** Lines 46-87: one turn of [while True]. [None]: the loop goes on. *)
Definition turn (t : tick) (s : session) : option loop_end * session :=
  match t_select t with
  | Fails => (Some Broke, s)
  | Returns ready =>
      match serve t ready s with
      | (Ok _, s') => (check_child (t_waitpid t), s')
      | (Raise e, s') => (Some (Raised e), s')
      | (Fuel, s') => (Some NoFuel, s')
      end
  end.

Fixpoint loop (ticks : list tick) (s : session) : loop_end * session :=
  match ticks with
  | [] => (Pending, s)
  | t :: ticks' =>
      match turn t s with
      | (None, s') => loop ticks' s'
      | (Some e, s') => (e, s')
      end
  end.

(** Lines 37-89 of [main]. *)
Definition main (cols rows : Z) (boot : sys unit) (ticks : list tick)
    (s0 : session) : proc * session :=
  match set_size boot cols rows s0 with
  | (Ok _, s1) =>
      let old_flags := stdin_flags s1 in
      let s2 := set_stdin_flags (Z.lor old_flags O_NONBLOCK) s1 in
      match loop ticks s2 with
      | (Pending, s3) => (Running, s3)
      | (e, s3) => (proc_of e, set_stdin_flags old_flags s3)
      end
  | (Raise e, s1) => (proc_of (Raised e), s1)
  | (Fuel, s1) => (Stuck, s1)
  end.

End Relay.
End TerminalPty.

(** ** terminal_win.py *)

Module TerminalWin.
Import Py.

(** [RESIZE_RE]: [\x1b\]RESIZE;[0-9]+;[0-9]+\x07] with [re.IGNORECASE]. Each
    [[0-9]+] is followed by a byte that is no digit, so the greedy match is
    the only one. *)
Definition RESIZE_RE (data : bytes) : option nat :=
  if startswith_ci (ESC :: b "]RESIZE;") data then
    let cols := drop 9 data in
    let n1 := digits_span cols in
    match n1, drop n1 cols with
    | S _, sep :: rows =>
        let n2 := digits_span rows in
        match n2, drop n2 rows with
        | S _, bel :: _ =>
            if Byte.eqb sep x3b && Byte.eqb bel BEL
            then Some (9 + n1 + 1 + n2 + 1)%nat
            else None
        | _, _ => None
        end
    | _, _ => None
    end
  else None.

(** [FOCUS_IN_RE] and [FOCUS_OUT_RE] *)
Definition FOCUS_IN_RE : bytes -> option nat := literal (ESC :: b "[I").
Definition FOCUS_OUT_RE : bytes -> option nat := literal (ESC :: b "[O").

(** Lines 42-46 of [read_output]: what is left of a chunk of PTY output,
    already encoded to bytes, after the three substitutions. *)
Definition filter_output (output : bytes) : bytes :=
  let output := re_sub RESIZE_RE 0 output in
  let output := re_sub FOCUS_IN_RE 0 output in
  re_sub FOCUS_OUT_RE 0 output.

(** The ConPTY session: its size, the history of the sizes that
    [pty.set_size] installed, and the text handed to [pty.write]. *)
Record session := {
  size : Z * Z;              (* (cols, rows) *)
  applied : list (Z * Z);
  pty_in : str
}.

Definition with_size (cr : Z * Z) (s : session) : session :=
  {| size := cr; applied := applied s ++ [cr]; pty_in := pty_in s |}.

Definition write_pty (text : str) (s : session) : session :=
  {| size := size s; applied := applied s; pty_in := pty_in s ++ text |}.

(** The session that [PTY(cols, rows)] creates. *)
Definition fresh (cols rows : Z) : session :=
  {| size := (cols, rows); applied := []; pty_in := [] |}.

(** The shell behind the PTY as the main thread meets it: the exit code it
    ends with, and for how many tests of the loop condition
    [running and pty.isalive()] holds. The code never asks for the exit
    code. *)
Record shell := {
  exit_code : Z;
  lifetime : nat
}.

Definition alive (sh : shell) (n : nat) : bool := (n <? lifetime sh)%nat.

Section Relay.
Context `{UnicodeDB}.

(** pywinpty's [PTY.set_size]: whether it accepts a size or raises. *)
Variable pty_set_size : Z -> Z -> res unit.

(** The shell behind the PTY. *)
Variable sh : shell.

(** Lines 67-72: [while True] reading up to the terminator. At the end of
    the input [read(1)] returns [b''], which is not the terminator. *)
Fixpoint read_directive (fuel : nat) (resize_data input : bytes)
  : res (bytes * bytes) :=
  match fuel with
  | O => Fuel
  | S fuel' =>
      let c := take 1 input in
      if bytes_eqb c [BEL] then Ok (resize_data, drop 1 input)
      else read_directive fuel' (resize_data ++ c) (drop 1 input)
  end.

(** Lines 74-80: parse [;cols;rows] and resize. *)
Definition apply_resize (resize_data : bytes) (s : session)
  : res unit * session :=
  match decode resize_data with
  | Ok text =>
      match split 59 (strip 59 text) with
      | [p0; p1] =>
          match (c ← int p0; r ← int p1; Ok (c, r)) with
          | Ok (c, r) =>
              match pty_set_size c r with
              | Ok _ => (Ok tt, with_size (c, r) s)
              | Raise ValueError => (Ok tt, s)
              | Raise e => (Raise e, s)
              | Fuel => (Fuel, s)
              end
          | Raise ValueError => (Ok tt, s)
          | Raise e => (Raise e, s)
          | Fuel => (Fuel, s)
          end
      | _ => (Ok tt, s)
      end
  | Raise e => (Raise e, s)
  | Fuel => (Fuel, s)
  end.

(** Lines 57-86: [while running and pty.isalive()]; [n] counts the turns.
    [except Exception: break] ends the loop on every exception but
    [SystemExit]. *)
Fixpoint relay (fuel : nat) (n : nat) (input : bytes) (s : session)
  : res unit * session :=
  match fuel with
  | O => (Fuel, s)
  | S fuel' =>
      if negb (alive sh n) then (Ok tt, s)
      else match input with
           | [] => (Ok tt, s)
           | data :: input1 =>
               if Byte.eqb data ESC then
                 let peek := take 7 input1 in
                 let input2 := drop 7 input1 in
                 if bytes_eqb peek (b "]RESIZE") then
                   match read_directive fuel' [] input2 with
                   | Ok (resize_data, input3) =>
                       match apply_resize resize_data s with
                       | (Ok _, s') => relay fuel' (S n) input3 s'
                       | (Raise (SystemExit code), s') =>
                           (Raise (SystemExit code), s')
                       | (Raise _, s') => (Ok tt, s')
                       | (Fuel, s') => (Fuel, s')
                       end
                   | Raise e => (Raise e, s)
                   | Fuel => (Fuel, s)
                   end
                 else relay fuel' (S n) input2
                        (write_pty (decode_replace (data :: peek)) s)
               else relay fuel' (S n) input1
                      (write_pty (decode_replace [data]) s)
           end
  end.

(** Lines 57-93 of [main] once the PTY exists: the loop, then
    [sys.exit(0)]. *)
Definition main (fuel : nat) (input : bytes) (s : session) : proc * session :=
  match relay fuel 0 input s with
  | (Ok _, s') => (Exited 0, s')
  | (Raise (SystemExit code), s') => (Exited (exit_status code), s')
  | (Raise _, s') => (Exited 1, s')
  | (Fuel, s') => (Stuck, s')
  end.

End Relay.
End TerminalWin.

(** ** The notions in which the properties are stated *)

Module Wire.
Import Py Posix.

Definition ascii (data : bytes) : Prop :=
  Forall (fun c => (Byte.to_N c < 128)%N) data.

(** A sequence of ASCII decimal digits. *)
Definition digits (ds : bytes) : Prop :=
  Forall (fun d => is_digit (Byte.to_N d) = true) ds.

Definition decimal_from (acc : N) (ds : bytes) : N :=
  fold_left (fun acc d => (10 * acc + (Byte.to_N d - 48))%N) ds acc.

(** The number that a sequence of decimal digits writes. *)
Definition decimal (ds : bytes) : Z := Z.of_N (decimal_from 0 ds).

(** A field of a directive: one digit at least, and no more digits than
    [int] converts. *)
Definition field (ds : bytes) : Prop :=
  ds ≠ [] /\ digits ds /\ (length ds <= max_str_digits)%nat.

(** A field whose number fits the unsigned short of [struct winsize]. *)
Definition short_field (ds : bytes) : Prop :=
  field ds /\ (decimal ds <= 65535)%Z.

(** [ESC ']' "RESIZE;" <cols> ';' <rows> BEL] *)
Definition directive (cols rows : bytes) : bytes :=
  RESIZE ++ cols ++ [x3b] ++ rows ++ [BEL].

(** A chunk that goes on with directives, each followed by literal bytes. *)
Fixpoint interleave (items : list (bytes * bytes * bytes)) : bytes :=
  match items with
  | [] => []
  | (cols, rows, seg) :: items' => directive cols rows ++ seg ++ interleave items'
  end.

(** The literal bytes of such a chunk. *)
Fixpoint literals (items : list (bytes * bytes * bytes)) : bytes :=
  match items with
  | [] => []
  | (_, _, seg) :: items' => seg ++ literals items'
  end.

(** The sizes its directives carry. *)
Definition sizes (items : list (bytes * bytes * bytes)) : list (Z * Z) :=
  map (fun it => (decimal it.1.1, decimal it.1.2)) items.

(** A directive whose two numbers fit the device, followed by literal
    bytes. *)
Definition plain_item (it : bytes * bytes * bytes) : Prop :=
  short_field it.1.1 /\ short_field it.1.2.

(** [s'] comes after [s] in a run: the flags of standard input are the
    same, sizes were installed one after the other, and the device holds the
    last of them. *)
Definition follows (s s' : session) : Prop :=
  stdin_flags s' = stdin_flags s
  /\ exists szs, applied s' = applied s ++ szs
                 /\ winsize s' = List.last szs (winsize s).

(** Host input is at its end and the shell still runs: [select] reports
    standard input readable, [os.read] returns [b''], [waitpid] returns
    [(0, 0)]. *)
Definition eof_turn (t : tick) : Prop :=
  t_select t = Returns (false, true)
  /\ t_read_in t = Returns []
  /\ t_waitpid t = StillRunning.

(** The session after the sizes have been installed one after the other. *)
Definition resized (szs : list (Z * Z)) (s : session) : session :=
  fold_left (fun s cr => with_winsize cr s) szs s.

Section Removal.
Context `{UnicodeDB}.




End Removal.




(** What [main] owes to the flags of standard input: non-blocking mode on
    top of the flags it found while the loop turns, the flags it found once
    the process has ended. *)
Definition flags_after (flags0 : Z) (r : proc * session) : Prop :=
  match r.1 with
  | Running => stdin_flags r.2 = Z.lor flags0 O_NONBLOCK
  | Exited _ => stdin_flags r.2 = flags0
  | Stuck => False
  end.

(** A turn in which [select] reports host input only: what [os.read]
    returns and what [waitpid] answers; every other call succeeds. *)
Definition stdin_turn (input : sys bytes) (w : waited) : tick :=
  {| t_select := Returns (false, true); t_read_pty := Fails;
     t_write_out := Returns tt; t_read_in := input; t_ioctl := Returns tt;
     t_write_pty := Returns tt; t_waitpid := w |}.

End Wire.

(** ** The echoes that the Windows helper filters, as the specification
    words them *)

Module Echo.
Import Py TerminalWin.

(** A nuisance sequence in the output of the PTY: the resize directive
    echoed back, with its word and its two fields, or a focus report. *)
Inductive echo :=
| EchoResize (word cols rows : bytes)
| FocusIn
| FocusOut.

Definition render (e : echo) : bytes :=
  match e with
  | EchoResize word cols rows =>
      ESC :: b "]" ++ word ++ [x3b] ++ cols ++ [x3b] ++ rows ++ [BEL]
  | FocusIn => ESC :: b "[I"
  | FocusOut => ESC :: b "[O"
  end.

(** The word of an echo is [RESIZE] in any mix of cases, and its fields are
    digits. *)
Definition echo_ok (e : echo) : Prop :=
  match e with
  | EchoResize word cols rows =>
      map tolower word = b "resize"
      /\ cols ≠ [] /\ Wire.digits cols /\ rows ≠ [] /\ Wire.digits rows
  | _ => True
  end.

(** A chunk of output: literal bytes and echoes. *)
Inductive piece :=
| Lit (seg : bytes)
| Nuisance (e : echo).

Definition piece_bytes (p : piece) : bytes :=
  match p with
  | Lit seg => seg
  | Nuisance e => render e
  end.

Definition piece_ok (p : piece) : Prop :=
  match p with
  | Lit _ => True
  | Nuisance e => echo_ok e
  end.

Definition flatten (ps : list piece) : bytes := flat_map piece_bytes ps.

(** The literal bytes of such a chunk. *)
Definition literal_part (ps : list piece) : bytes :=
  flat_map (fun p => match p with Lit seg => seg | Nuisance _ => [] end) ps.

(** Bytes in which none of the three patterns of the filter finds a
    match. *)
Definition clean (data : bytes) : Prop :=
  no_match RESIZE_RE data = true
  /\ no_match FOCUS_IN_RE data = true
  /\ no_match FOCUS_OUT_RE data = true.

(** A PTY that accepts every size. *)
Definition accept_all (cols rows : Z) : res unit := Ok tt.

End Echo.

(** ** The start of the POSIX helpers *)

Module Startup.
Import Py Posix.

Section Args.
Context `{UnicodeDB}.

(** Lines 19-26 of [main]: the usage check, then [cols], [rows], [shell]
    and [shell_args]. [sys.exit(1)] answers fewer than four entries in
    [sys.argv]. *)
Definition parse_argv (argv : list str) : res (Z * Z * str * list str) :=
  match argv with
  | _ :: a1 :: a2 :: shell :: args =>
      cols ← int a1;
      rows ← int a2;
      Ok (cols, rows, shell, shell :: args)
  | _ => Raise (SystemExit 1)
  end.

(** [scripts/terminal_pty.py] from its first line, in the parent process:
    the shell and its arguments go to [os.execvp] in the child. *)
Definition program (argv : list str) (boot : sys unit) (ticks : list tick)
    (s0 : session) : proc * session :=
  match parse_argv argv with
  | Ok (cols, rows, _, _) => ScriptsPty.main cols rows boot ticks s0
  | Raise e => (proc_of (Raised e), s0)
  | Fuel => (Stuck, s0)
  end.

End Args.

End Startup.

(** ** What a run shows *)

Module Observe.
Import Py Posix.

(** Blanks for [int]: tab, line feed, vertical tab, form feed, carriage
    return, space. *)
Definition blanks (pad : bytes) : Prop :=
  Forall (fun c => is_space (Byte.to_N c) = true) pad.

(** How the size moves in the loop of the Windows helper: sizes are
    installed one after the other and the session holds the last. *)
Definition win_follows (s s' : TerminalWin.session) : Prop :=
  exists szs, TerminalWin.applied s' = TerminalWin.applied s ++ szs
              /\ TerminalWin.size s' = List.last szs (TerminalWin.size s).

(** The bytes that a turn of the relay loop passes from the PTY to standard
    output: the chunk it reads when [select] reports the PTY and both the
    read and the write succeed. *)
Definition relayed_output (t : tick) : bytes :=
  match t_select t, t_read_pty t, t_write_out t with
  | Returns (true, _), Returns data, Returns _ => data
  | _, _, _ => []
  end.

Section Run.
Context `{UnicodeDB}.

(** How many turns of [while running] are run when the operating system
    answers with [ticks]: all of them while no turn leaves the loop, else
    the turns up to the one that leaves it, that one included. *)
Fixpoint turns_run (ticks : list tick) (s : session) : nat :=
  match ticks with
  | [] => 0
  | t :: ticks' =>
      match ScriptsPty.turn t s with
      | (None, s') => S (turns_run ticks' s')
      | (Some _, _) => 1
      end
  end.

End Run.

End Observe.

(** * Properties *)

(** ** Facts about the built-ins *)

Module PyFacts.
Import Py Wire.

Lemma byte_eqb_eq (x y : byte) : Byte.eqb x y = true <-> x = y.
Proof. split; [apply Byte.byte_dec_bl | apply Byte.byte_dec_lb]. Qed.

Lemma byte_eqb_neq (x y : byte) : Byte.eqb x y = false <-> x ≠ y.
Proof.
  rewrite <- byte_eqb_eq. destruct (Byte.eqb x y); split; congruence.
Qed.

Lemma byte_eqb_refl (x : byte) : Byte.eqb x x = true.
Proof. by apply byte_eqb_eq. Qed.

(** *** startswith and find *)

Lemma startswith_spec (pat data : bytes) :
  startswith pat data = true <-> exists rest, data = pat ++ rest.
Proof.
  revert data. induction pat as [|p pat IH]; intros data; simpl.
  - split; eauto.
  - destruct data as [|d data].
    + split; [discriminate | intros [rest Hr]; discriminate].
    + rewrite andb_true_iff, byte_eqb_eq, IH. split.
      * intros [-> [rest ->]]. eauto.
      * intros [rest Hr]. injection Hr as -> ->. eauto.
Qed.

Lemma startswith_app (pat rest : bytes) : startswith pat (pat ++ rest) = true.
Proof. apply startswith_spec. eauto. Qed.

Lemma startswith_head_neq (p d : byte) (pat data : bytes) :
  d ≠ p -> startswith (p :: pat) (d :: data) = false.
Proof.
  intros Hne. simpl. apply andb_false_iff. left.
  apply byte_eqb_neq. congruence.
Qed.

Lemma find_cons (pat : bytes) (d : byte) (data : bytes) :
  find pat (d :: data) =
  if startswith pat (d :: data) then Some 0%nat
  else option_map S (find pat data).
Proof. done. Qed.

Lemma find_here (pat rest : bytes) : find pat (pat ++ rest) = Some 0%nat.
Proof.
  destruct (pat ++ rest) as [|d l] eqn:E.
  - apply app_eq_nil in E as [-> ->]. done.
  - rewrite find_cons, <- E, startswith_app. done.
Qed.

(** [find] returns an occurrence. *)
Lemma find_Some (pat data : bytes) (i : nat) :
  find pat data = Some i ->
  data = take i data ++ pat ++ drop (i + length pat) data
  /\ (i + length pat <= length data)%nat.
Proof.
  revert i. induction data as [|d data IH]; intros i; simpl.
  - destruct (startswith pat []) eqn:Hs; [|discriminate].
    intros [= <-]. apply startswith_spec in Hs as [rest Hr].
    symmetry in Hr. apply app_eq_nil in Hr as [-> ->]. simpl. split; [done | lia].
  - destruct (startswith pat (d :: data)) eqn:Hs.
    + intros [= <-]. apply startswith_spec in Hs as [rest Hr].
      split.
      * rewrite Hr. cbn [take Nat.add app]. by rewrite drop_app_length.
      * apply (f_equal length) in Hr. rewrite length_app in Hr. simpl in Hr. lia.
    + destruct (find pat data) as [j|] eqn:Hf; simpl; [|discriminate].
      intros [= <-]. destruct (IH j eq_refl) as [IH1 IH2].
      simpl. split; [by rewrite <- IH1 | lia].
Qed.

(** [find] returns the leftmost occurrence. *)
Lemma find_leftmost (pat pre rest : bytes) :
  exists i, find pat (pre ++ pat ++ rest) = Some i /\ (i <= length pre)%nat.
Proof.
  induction pre as [|d pre IH].
  - exists 0%nat. split; [exact (find_here pat rest) | simpl; lia].
  - destruct IH as (i & Hi & Hle).
    destruct (startswith pat (d :: pre ++ pat ++ rest)) eqn:Hs.
    + exists 0%nat. rewrite <- app_comm_cons, find_cons, Hs. split; [done | lia].
    + exists (S i). rewrite <- app_comm_cons, find_cons, Hs, Hi.
      split; [done | simpl; lia].
Qed.

Lemma find_None (pat pre rest : bytes) :
  find pat (pre ++ pat ++ rest) ≠ None.
Proof. destruct (find_leftmost pat pre rest) as (i & -> & _). done. Qed.

(** A pattern is not found inside text that lacks its first byte. *)
Lemma find_after (p : byte) (pat pre rest : bytes) :
  p ∉ pre -> find (p :: pat) (pre ++ (p :: pat) ++ rest) = Some (length pre).
Proof.
  induction pre as [|d pre IH]; intros Hp.
  - exact (find_here (p :: pat) rest).
  - apply not_elem_of_cons in Hp as [Hd Hp].
    rewrite <- app_comm_cons, find_cons.
    rewrite startswith_head_neq by congruence.
    rewrite (IH Hp). done.
Qed.

Lemma find_absent (p : byte) (pat data : bytes) :
  p ∉ data -> find (p :: pat) data = None.
Proof.
  induction data as [|d data IH]; intros Hp; [done|].
  apply not_elem_of_cons in Hp as [Hd Hp].
  rewrite find_cons, startswith_head_neq by congruence.
  by rewrite (IH Hp).
Qed.

(** Text without an occurrence of the pattern has none in its prefixes. *)
Lemma find_app_None (pat pre rest : bytes) :
  find pat (pre ++ rest) = None -> find pat pre = None.
Proof.
  induction pre as [|d pre IH].
  - destruct pat as [|p pat]; [|done]. by destruct rest.
  - rewrite <- app_comm_cons, !find_cons.
    destruct (startswith pat (d :: pre ++ rest)) eqn:Hs; [done|].
    destruct (startswith pat (d :: pre)) eqn:Hp.
    + apply startswith_spec in Hp as [tail Hp].
      assert (startswith pat (d :: pre ++ rest) = true) as Ht; [|congruence].
      apply startswith_spec. exists (tail ++ rest).
      by rewrite app_comm_cons, Hp, <- app_assoc.
    + destruct (find pat (pre ++ rest)); [done|]. by rewrite IH.
Qed.

(** A pattern in which the first byte does not come back cannot start in
    the text before an occurrence and run into it. *)
Lemma startswith_behind (p : byte) (pat data rest : bytes) :
  p ∉ pat -> startswith pat data = false ->
  startswith pat (data ++ p :: rest) = false.
Proof.
  revert data. induction pat as [|q pat IH]; intros data Hp Hs; [done|].
  apply not_elem_of_cons in Hp as [Hq Hp].
  destruct data as [|d data].
  - cbn. apply andb_false_iff. left. apply byte_eqb_neq. congruence.
  - cbn in *. apply andb_false_iff in Hs as [Hs|Hs]; apply andb_false_iff;
      [by left | right; by apply IH].
Qed.

(** The first occurrence of such a pattern behind text that holds none. *)
Lemma find_behind (p : byte) (pat pre rest : bytes) :
  p ∉ pat -> find (p :: pat) pre = None ->
  find (p :: pat) (pre ++ (p :: pat) ++ rest) = Some (length pre).
Proof.
  intros Hp. induction pre as [|d pre IH]; intros Hf.
  - exact (find_here (p :: pat) rest).
  - rewrite find_cons in Hf.
    destruct (startswith (p :: pat) (d :: pre)) eqn:Hs; [done|].
    destruct (find (p :: pat) pre) eqn:Hf'; [done|].
    rewrite <- app_comm_cons, find_cons.
    assert (startswith (p :: pat) (d :: pre ++ (p :: pat) ++ rest) = false) as ->.
    { cbn in *. apply andb_false_iff in Hs as [Hs|Hs]; apply andb_false_iff;
        [by left | right; by apply startswith_behind]. }
    by rewrite IH.
Qed.



(** *** index and slice *)

Lemma index_after (p : byte) (start : nat) (pre mid post : bytes) :
  length pre = start -> p ∉ mid ->
  index [p] start (pre ++ mid ++ p :: post) = Ok (start + length mid)%nat.
Proof.
  intros <- Hp. unfold index. rewrite drop_app_length.
  change (p :: post) with ([p] ++ post). by rewrite (find_after p [] mid post Hp).
Qed.

Lemma index_missing (p : byte) (start : nat) (data : bytes) :
  p ∉ drop start data -> index [p] start data = Raise ValueError.
Proof. intros Hp. unfold index. by rewrite find_absent. Qed.

Lemma slice_middle (pre mid post : bytes) (lo hi : nat) :
  lo = length pre -> hi = (lo + length mid)%nat ->
  slice lo hi (pre ++ mid ++ post) = mid.
Proof.
  intros -> ->. unfold slice. rewrite drop_app_length.
  replace (length pre + length mid - length pre)%nat with (length mid) by lia.
  by rewrite take_app_length.
Qed.

(** *** decode *)

Lemma utf8_items_ascii (data : bytes) :
  ascii data -> utf8_items 0 data = map (fun c => Char (Byte.to_N c)) data.
Proof.
  induction 1 as [|c data Hc _ IH]; [done|].
  cbn [utf8_items map]. unfold utf8_step.
  apply N.ltb_lt in Hc. rewrite Hc. cbn. by rewrite IH.
Qed.

Lemma decode_ascii (data : bytes) :
  ascii data -> decode data = Ok (map Byte.to_N data).
Proof.
  intros Ha. unfold decode. rewrite (utf8_items_ascii _ Ha).
  clear Ha. induction data as [|c data IH]; [done|].
  cbn [map strict_chars].
  destruct (strict_chars (map (λ c0 : byte, Char (Byte.to_N c0)) data)); [|done].
  injection IH as <-. done.
Qed.

Lemma decode_replace_ascii (data : bytes) :
  ascii data -> decode_replace data = map Byte.to_N data.
Proof.
  intros Ha. unfold decode_replace. rewrite (utf8_items_ascii _ Ha).
  by rewrite map_map.
Qed.

(** *** split *)

Lemma split_no_sep (sep : N) (s : str) : sep ∉ s -> split sep s = [s].
Proof.
  induction s as [|c s IH]; intros Hs; [done|].
  apply not_elem_of_cons in Hs as [Hc Hs]. cbn [split].
  destruct (N.eqb_spec c sep); [congruence|]. by rewrite (IH Hs).
Qed.

Lemma split_two (sep : N) (s1 s2 : str) :
  sep ∉ s1 -> sep ∉ s2 -> split sep (s1 ++ sep :: s2) = [s1; s2].
Proof.
  intros H1 H2. induction s1 as [|c s1 IH].
  - cbn [app split]. rewrite N.eqb_refl. by rewrite split_no_sep.
  - apply not_elem_of_cons in H1 as [Hc H1]. rewrite <- app_comm_cons. cbn [split].
    destruct (N.eqb_spec c sep); [congruence|]. by rewrite (IH H1).
Qed.

(** *** int *)

Lemma is_digit_range (c : N) : is_digit c = true <-> (48 <= c <= 57)%N.
Proof. unfold is_digit. rewrite andb_true_iff, !N.leb_le. done. Qed.

Lemma digit_run_digits (ds : bytes) (acc : N) (n : nat) :
  digits ds ->
  digit_run false acc n (map Byte.to_N ds)
  = Some (decimal_from acc ds, (n + length ds)%nat, []).
Proof.
  intros Hd. revert acc n. induction Hd as [|d ds Hd _ IH]; intros acc n.
  - cbn. do 3 f_equal. lia.
  - cbn [map digit_run]. rewrite Hd, IH. cbn [length decimal_from fold_left].
    do 3 f_equal. lia.
Qed.

Lemma skip_spaces_digit (c : N) (s : str) :
  is_digit c = true -> skip_spaces (c :: s) = c :: s.
Proof.
  intros Hc%is_digit_range. cbn [skip_spaces]. unfold is_space.
  destruct (N.leb_spec 9 c), (N.leb_spec c 13), (N.eqb_spec c 32);
    cbn; first [done | lia].
Qed.

Lemma long_from_string_digits (ds : bytes) :
  digits ds -> ds ≠ [] -> (length ds <= max_str_digits)%nat ->
  long_from_string (map Byte.to_N ds) = Some (decimal ds).
Proof.
  intros Hd Hne Hlen. destruct ds as [|d ds]; [done|].
  pose proof (Forall_inv Hd) as Hd0. cbn beta in Hd0.
  unfold long_from_string. cbn [map]. rewrite (skip_spaces_digit _ _ Hd0).
  pose proof (proj1 (is_digit_range _) Hd0) as Hr.
  destruct (N.eqb_spec (Byte.to_N d) 43); [lia|].
  destruct (N.eqb_spec (Byte.to_N d) 45); [lia|].
  destruct (N.eqb_spec (Byte.to_N d) 95); [lia|].
  change (Byte.to_N d :: map Byte.to_N ds) with (map Byte.to_N (d :: ds)).
  rewrite (digit_run_digits _ _ _ Hd).
  cbn [Nat.add length Nat.eqb].
  destruct (Nat.ltb_spec max_str_digits (S (length ds))); [simpl in Hlen; lia|].
  done.
Qed.

Lemma digits_ascii (ds : bytes) : digits ds -> ascii ds.
Proof.
  intros Hd. eapply Forall_impl; [exact Hd|].
  intros d Hr%is_digit_range. cbn beta. lia.
Qed.

Lemma is_ascii_map (data : bytes) :
  ascii data -> is_ascii (map Byte.to_N data) = true.
Proof.
  induction 1 as [|c data Hc _ IH]; [done|].
  cbn. apply N.ltb_lt in Hc. by rewrite Hc.
Qed.

Lemma int_digits `{UnicodeDB} (ds : bytes) :
  digits ds -> ds ≠ [] -> (length ds <= max_str_digits)%nat ->
  int (map Byte.to_N ds) = Ok (decimal ds).
Proof.
  intros Hd Hne Hlen. unfold int.
  rewrite (is_ascii_map _ (digits_ascii _ Hd)).
  by rewrite (long_from_string_digits _ Hd Hne Hlen).
Qed.

(** *** struct *)

Lemma unpack_pack (v : Z) :
  (0 <= v)%Z -> unpack_H (Z.land v 255) (Z.shiftr v 8) = v.
Proof.
  intros Hv. unfold unpack_H. apply Z.bits_inj'. intros n Hn.
  rewrite Z.lor_spec, Z.land_spec. change 255%Z with (Z.ones 8).
  destruct (Z.ltb_spec n 8).
  - rewrite Z.ones_spec_low, Z.shiftl_spec_low by lia.
    by rewrite andb_true_r, orb_false_r.
  - rewrite Z.ones_spec_high, Z.shiftl_spec, Z.shiftr_spec by lia.
    rewrite andb_false_r. cbn [orb]. f_equal. lia.
Qed.

Lemma pack_H_range (v : Z) :
  (0 <= v <= 65535)%Z -> pack_H v = Ok [Z.land v 255; Z.shiftr v 8].
Proof.
  intros Hv. unfold pack_H.
  destruct (Z.leb_spec 0 v), (Z.leb_spec v 65535); first [done | lia].
Qed.

Lemma pack_H_error (v : Z) :
  ¬ (0 <= v <= 65535)%Z -> pack_H v = Raise StructError.
Proof.
  intros Hv. unfold pack_H.
  destruct (Z.leb_spec 0 v), (Z.leb_spec v 65535); first [done | lia].
Qed.

End PyFacts.

Module PosixFacts.
Import Py Posix Wire PyFacts.

Lemma RESIZE_eq : RESIZE = ESC :: b "]RESIZE;".
Proof. done. Qed.

(** The introducer holds [ESC] at its start only, so the first introducer
    behind text that holds none starts where that text ends. *)
Lemma find_RESIZE_behind (pre rest : bytes) :
  find RESIZE pre = None ->
  find RESIZE (pre ++ RESIZE ++ rest) = Some (length pre).
Proof.
  rewrite RESIZE_eq. apply find_behind. cbv. intros Hin.
  repeat (apply elem_of_cons in Hin as [Hin|Hin]; [discriminate|]).
  by apply elem_of_nil in Hin.
Qed.

Lemma set_size_ok (cols rows : Z) (s : session) :
  (0 <= cols <= 65535)%Z -> (0 <= rows <= 65535)%Z ->
  set_size (Returns tt) cols rows s = (Ok tt, with_winsize (cols, rows) s).
Proof.
  intros Hc Hr. unfold set_size, pack_HHHH.
  rewrite (pack_H_range _ Hr), (pack_H_range _ Hc). cbn.
  unfold TIOCSWINSZ. rewrite !unpack_pack by lia. done.
Qed.

(** [set_size] either installs the size or leaves the session alone, and
    what it raises is [struct.error] or [OSError]. *)
Lemma set_size_cases (io : sys unit) (cols rows : Z) (s : session) :
  (set_size io cols rows s = (Ok tt, with_winsize (cols, rows) s)
     /\ (0 <= cols <= 65535)%Z /\ (0 <= rows <= 65535)%Z)
  \/ set_size io cols rows s = (Raise StructError, s)
  \/ set_size io cols rows s = (Raise OSError, s).
Proof.
  destruct (decide (0 <= rows <= 65535)%Z) as [Hr|Hr];
    [destruct (decide (0 <= cols <= 65535)%Z) as [Hc|Hc]|].
  - destruct io as [[]|].
    + left. split; [by apply set_size_ok | done].
    + right; right. unfold set_size, pack_HHHH.
      rewrite (pack_H_range _ Hr), (pack_H_range _ Hc). done.
  - right; left. unfold set_size, pack_HHHH.
    rewrite (pack_H_range _ Hr), (pack_H_error _ Hc). done.
  - right; left. unfold set_size, pack_HHHH.
    rewrite (pack_H_error _ Hr). done.
Qed.

Lemma last_cons_default {A} (x d : A) (l : list A) :
  List.last (x :: l) d = List.last l x.
Proof.
  revert x d. induction l as [|y l IH]; intros x d; [done|].
  change (List.last (x :: y :: l) d) with (List.last (y :: l) d).
  by rewrite !IH.
Qed.

Lemma last_app_default {A} (l1 l2 : list A) (d : A) :
  List.last (l1 ++ l2) d = List.last l2 (List.last l1 d).
Proof.
  revert d. induction l1 as [|x l1 IH]; intros d; [done|].
  rewrite <- app_comm_cons, !last_cons_default. apply IH.
Qed.

Lemma resized_spec (szs : list (Z * Z)) (s : session) :
  applied (resized szs s) = applied s ++ szs
  /\ winsize (resized szs s) = List.last szs (winsize s)
  /\ pty_in (resized szs s) = pty_in s
  /\ host_out (resized szs s) = host_out s
  /\ stdin_flags (resized szs s) = stdin_flags s.
Proof.
  revert s. induction szs as [|cr szs IH]; intros s.
  - cbn. by rewrite app_nil_r.
  - change (resized (cr :: szs) s) with (resized szs (with_winsize cr s)).
    destruct (IH (with_winsize cr s)) as (-> & -> & -> & -> & ->).
    cbn [with_winsize applied winsize pty_in host_out stdin_flags].
    rewrite <- app_assoc. repeat split; try done.
    by rewrite last_cons_default.
Qed.

Lemma follows_refl (s : session) : follows s s.
Proof. split; [done|]. exists []. by rewrite app_nil_r. Qed.

Lemma follows_trans (s1 s2 s3 : session) :
  follows s1 s2 -> follows s2 s3 -> follows s1 s3.
Proof.
  intros [Hf1 (l1 & Ha1 & Hw1)] [Hf2 (l2 & Ha2 & Hw2)].
  split; [congruence|]. exists (l1 ++ l2).
  rewrite Ha2, Ha1, Hw2, Hw1, last_app_default, app_assoc. done.
Qed.

Lemma follows_with_winsize (cr : Z * Z) (s : session) :
  follows s (with_winsize cr s).
Proof. split; [done|]. by exists [cr]. Qed.

Lemma follows_write_pty (data : bytes) (s : session) : follows s (write_pty data s).
Proof. split; [done|]. exists []. by rewrite app_nil_r. Qed.

Lemma follows_write_host (data : bytes) (s : session) : follows s (write_host data s).
Proof. split; [done|]. exists []. by rewrite app_nil_r. Qed.

Lemma set_size_follows (io : sys unit) (cols rows : Z) (s s' : session) (r : res unit) :
  set_size io cols rows s = (r, s') -> follows s s'.
Proof.
  destruct (set_size_cases io cols rows s) as [[-> _]|[->| ->]];
    intros [= <- <-]; auto using follows_refl, follows_with_winsize.
Qed.

Create HintDb follows.
#[global] Hint Resolve follows_refl follows_with_winsize follows_write_pty
  follows_write_host : follows.

Section Directive.
Context `{UnicodeDB}.

Lemma digits_no (c : byte) (ds : bytes) :
  is_digit (Byte.to_N c) = false -> digits ds -> c ∉ ds.
Proof.
  intros Hc Hd Hin. unfold digits in Hd. rewrite Forall_forall in Hd.
  specialize (Hd _ Hin). congruence.
Qed.

Lemma digits_no_N (c : N) (ds : bytes) :
  is_digit c = false -> digits ds -> c ∉ map Byte.to_N ds.
Proof.
  intros Hc Hd Hin. apply list_elem_of_fmap in Hin as (d & -> & Hin).
  unfold digits in Hd. rewrite Forall_forall in Hd.
  specialize (Hd _ Hin). congruence.
Qed.

Lemma parse_payload_fields (cols rows : bytes) :
  field cols -> field rows ->
  parse_payload (cols ++ [x3b] ++ rows) = Ok (decimal cols, decimal rows).
Proof.
  intros (Hc0 & Hc & Hcl) (Hr0 & Hr & Hrl). unfold parse_payload.
  rewrite decode_ascii.
  2:{ apply Forall_app. split; [by apply digits_ascii|].
      apply Forall_cons. split; [cbn; lia | by apply digits_ascii]. }
  cbn [mbind res_bind]. rewrite map_app. cbn [map app].
  change (Byte.to_N x3b) with 59%N.
  rewrite split_two by (by apply digits_no_N).
  cbn [unpack2 mbind res_bind].
  rewrite (int_digits _ Hc Hc0 Hcl). cbn [mbind res_bind].
  rewrite (int_digits _ Hr Hr0 Hrl). done.
Qed.

Lemma directive_at_directive (start : nat) (pre cols rows post : bytes) :
  length pre = start -> field cols -> field rows ->
  directive_at start (pre ++ directive cols rows ++ post)
  = Ok ((start + 9 + length cols + 1 + length rows)%nat,
        decimal cols, decimal rows).
Proof.
  intros Hs Hc Hr. unfold directive_at, directive.
  assert (Hbel : BEL ∉ RESIZE ++ cols ++ [x3b] ++ rows).
  { rewrite !not_elem_of_app. repeat split.
    - rewrite RESIZE_eq. cbv. intros Hin.
      repeat (apply elem_of_cons in Hin as [Hin|Hin]; [discriminate|]).
      by apply elem_of_nil in Hin.
    - apply digits_no; [done | apply Hc].
    - intros Hin. apply list_elem_of_singleton in Hin. discriminate.
    - apply digits_no; [done | apply Hr]. }
  replace (pre ++ (RESIZE ++ cols ++ [x3b] ++ rows ++ [BEL]) ++ post)
    with (pre ++ (RESIZE ++ cols ++ [x3b] ++ rows) ++ BEL :: post)
    by (by rewrite <- !app_assoc).
  rewrite (index_after BEL start pre _ post Hs Hbel). cbn [mbind res_bind].
  replace (pre ++ (RESIZE ++ cols ++ [x3b] ++ rows) ++ BEL :: post)
    with ((pre ++ RESIZE) ++ (cols ++ [x3b] ++ rows) ++ BEL :: post)
    by (by rewrite <- !app_assoc).
  rewrite (slice_middle (pre ++ RESIZE) (cols ++ [x3b] ++ rows)).
  2:{ rewrite length_app, Hs. done. }
  2:{ rewrite !length_app. change (length RESIZE) with 9%nat. cbn [length]. lia. }
  rewrite (parse_payload_fields _ _ Hc Hr). cbn [mbind res_bind].
  do 3 f_equal. rewrite !length_app. change (length RESIZE) with 9%nat.
  cbn [length]. lia.
Qed.

(** Parsing raises nothing but [ValueError]. *)
Lemma int_cases (s : str) : (exists z, int s = Ok z) \/ int s = Raise ValueError.
Proof.
  unfold int. destruct (if is_ascii s then _ else _) as [t|]; [|by right].
  destruct (long_from_string t); [left; eauto | by right].
Qed.

Lemma parse_payload_cases (payload : bytes) :
  (exists cr, parse_payload payload = Ok cr)
  \/ parse_payload payload = Raise ValueError.
Proof.
  unfold parse_payload, decode.
  destruct (strict_chars _) as [text|]; [|by right]. cbn [mbind res_bind].
  destruct (split 59 text) as [|c [|r [|]]]; cbn [unpack2 mbind res_bind];
    try by right.
  destruct (int_cases c) as [[zc ->]| ->]; cbn [mbind res_bind]; [|by right].
  destruct (int_cases r) as [[zr ->]| ->]; cbn [mbind res_bind]; [|by right].
  left. eauto.
Qed.

Lemma index_cases (p : byte) (start : nat) (data : bytes) :
  (exists e, index [p] start data = Ok e /\ (start <= e < length data)%nat)
  \/ index [p] start data = Raise ValueError.
Proof.
  unfold index. destruct (find [p] (drop start data)) as [i|] eqn:Hf; [|by right].
  left. exists (start + i)%nat. split; [done|].
  apply find_Some in Hf as [_ Hf]. rewrite length_drop in Hf.
  cbn [length] in Hf. lia.
Qed.

Lemma directive_at_cases (start : nat) (data : bytes) :
  (exists e c r, directive_at start data = Ok (e, c, r)
                 /\ (start <= e < length data)%nat)
  \/ directive_at start data = Raise ValueError.
Proof.
  unfold directive_at.
  destruct (index_cases BEL start data) as [(e & -> & He)| ->]; [|by right].
  cbn [mbind res_bind].
  destruct (parse_payload_cases (slice (start + 9) e data)) as [[[c r] ->]| ->];
    [|by right].
  left. exists e, c, r. done.
Qed.



End Directive.
End PosixFacts.

Module ScriptsFacts.
Import Py Posix Wire PyFacts PosixFacts ScriptsPty.

Section Scan.
Context `{UnicodeDB}.

(** What one pass of the [try] block can do at the introducer it found. *)
Lemma resize_at_cases (io : sys unit) (start : nat) (data : bytes) (s : session) :
  (exists e c r,
      directive_at start data = Ok (e, c, r)
      /\ (start <= e < length data)%nat
      /\ (0 <= c <= 65535)%Z /\ (0 <= r <= 65535)%Z
      /\ resize_at io start data s
         = (Ok (take start data ++ drop (e + 1) data), with_winsize (c, r) s))
  \/ (directive_at start data = Raise ValueError
      /\ resize_at io start data s = (Raise ValueError, s))
  \/ ((exists e c r, directive_at start data = Ok (e, c, r)
                     /\ ¬ ((0 <= c <= 65535)%Z /\ (0 <= r <= 65535)%Z))
      /\ resize_at io start data s = (Raise StructError, s))
  \/ (io = Fails /\ resize_at io start data s = (Raise OSError, s)).
Proof.
  unfold resize_at.
  destruct (directive_at_cases start data) as [(e & c & r & Hd & He)|Hd];
    rewrite Hd; [|right; left; done].
  destruct (decide ((0 <= c <= 65535)%Z /\ (0 <= r <= 65535)%Z)) as [[Hc Hr]|Hn].
  - destruct io as [[]|].
    + left. exists e, c, r. rewrite (set_size_ok _ _ _ Hc Hr). done.
    + right; right; right. split; [done|]. unfold set_size, pack_HHHH.
      rewrite (pack_H_range _ Hr), (pack_H_range _ Hc). done.
  - right; right; left. split; [eauto 10|].
    unfold set_size, pack_HHHH.
    destruct (decide (0 <= r <= 65535)%Z) as [Hr|Hr].
    + rewrite (pack_H_range _ Hr), (pack_H_error c) by lia. done.
    + rewrite (pack_H_error _ Hr). done.
Qed.

Lemma cut_shorter (start e : nat) (data : bytes) :
  (start <= e < length data)%nat ->
  (length (take start data ++ drop (e + 1) data) < length data)%nat.
Proof. intros He. rewrite length_app, length_take, length_drop. lia. Qed.

(** The scan of a chunk always comes to an end: a budget of one turn per
    byte is never used up. *)
Lemma scan_fuel_enough (fuel : nat) (io : sys unit) (data : bytes) (s : session) :
  (length data <= fuel)%nat -> (scan fuel io data s).1 ≠ Fuel.
Proof.
  revert data s. induction fuel as [|fuel IH]; intros data s Hlen.
  - cbn [scan]. destruct (find RESIZE data) as [start|] eqn:Hf; [|done].
    apply find_Some in Hf as [_ Hf]. change (length RESIZE) with 9%nat in Hf. lia.
  - cbn [scan]. destruct (find RESIZE data) as [start|] eqn:Hf; [|done].
    destruct (resize_at_cases io start data s)
      as [(e & c & r & _ & He & _ & _ & ->)|[[_ ->]|[[_ ->]|[_ ->]]]]; try done.
    apply IH. pose proof (cut_shorter _ _ _ He). lia.
Qed.


(** What is forwarded is the chunk with spans cut out. *)
Lemma scan_sublist (fuel : nat) (io : sys unit) (data data' : bytes) (s s' : session) :
  scan fuel io data s = (Ok data', s') -> data' `sublist_of` data.
Proof.
  revert data s. induction fuel as [|fuel IH]; intros data s; cbn [scan];
    destruct (find RESIZE data) as [start|] eqn:Hf.
  - done.
  - by intros [= <- <-].
  - destruct (resize_at_cases io start data s)
      as [(e & c & r & _ & He & _ & _ & ->)|[[Hd ->]|[[_ ->]|[_ ->]]]]; try done.
    + intros Hs%IH. etrans; [exact Hs|].
      rewrite <- (take_drop start data) at 3.
      apply sublist_app; [done|].
      replace (drop (e + 1) data) with (drop (e + 1 - start) (drop start data))
        by (rewrite drop_drop; f_equal; lia).
      apply sublist_drop.
    + by intros [= <- <-].
  - by intros [= <- <-].
Qed.

(** Without an introducer the chunk is forwarded as it is. *)
Lemma scan_plain (fuel : nat) (io : sys unit) (data : bytes) (s : session) :
  find RESIZE data = None -> scan fuel io data s = (Ok data, s).
Proof. intros Hf. destruct fuel; cbn [scan]; by rewrite Hf. Qed.

Lemma directive_length (cols rows : bytes) :
  length (directive cols rows) = (9 + length cols + 1 + length rows + 1)%nat.
Proof.
  unfold directive. rewrite !length_app. change (length RESIZE) with 9%nat.
  cbn [length]. lia.
Qed.

Lemma interleave_length (items : list (bytes * bytes * bytes)) :
  (length items <= length (interleave items))%nat.
Proof.
  induction items as [|[[cols rows] seg] items IH]; [done|].
  cbn [interleave length]. rewrite !length_app, directive_length. lia.
Qed.

Lemma decimal_nonneg (ds : bytes) : (0 <= decimal ds)%Z.
Proof. unfold decimal. lia. Qed.

(** One turn of the scan on a directive that stands first among the
    introducers of the data. *)
Lemma scan_directive (fuel : nat) (pre cols rows post : bytes) (s : session) :
  find RESIZE pre = None -> short_field cols -> short_field rows ->
  scan (S fuel) (Returns tt) (pre ++ directive cols rows ++ post) s
  = scan fuel (Returns tt) (pre ++ post)
      (with_winsize (decimal cols, decimal rows) s).
Proof.
  intros Hpre [Hc Hcs] [Hr Hrs]. cbn [scan].
  assert (Hf : find RESIZE (pre ++ directive cols rows ++ post)
               = Some (length pre)).
  { unfold directive. rewrite <- (app_assoc RESIZE).
    by apply find_RESIZE_behind. }
  rewrite Hf. unfold resize_at.
  rewrite (directive_at_directive _ pre cols rows post eq_refl Hc Hr).
  rewrite set_size_ok by (split; [apply decimal_nonneg | done]).
  rewrite take_app_length.
  replace (length pre + 9 + length cols + 1 + length rows + 1)%nat
    with (length pre + length (directive cols rows))%nat
    by (rewrite directive_length; lia).
  rewrite drop_app_add', drop_app_length by done. done.
Qed.

(** A chunk of literal bytes and directives: every directive is applied and
    cut out, the literal bytes stay. *)
Lemma scan_interleave (items : list (bytes * bytes * bytes)) :
  forall (fuel : nat) (seg0 : bytes) (s : session),
    find RESIZE (seg0 ++ literals items) = None ->
    Forall plain_item items -> (length items <= fuel)%nat ->
    scan fuel (Returns tt) (seg0 ++ interleave items) s
    = (Ok (seg0 ++ literals items), resized (sizes items) s).
Proof.
  induction items as [|[[cols rows] seg] items IH]; intros fuel seg0 s H0 Hit Hlen.
  - cbn [interleave literals sizes map resized fold_left] in *.
    by apply scan_plain.
  - destruct fuel as [|fuel]; [cbn in Hlen; lia|].
    apply Forall_cons in Hit as [(Hc & Hr) Hit]. cbn [fst snd] in *.
    cbn [interleave literals] in *.
    rewrite scan_directive; [|by apply find_app_None in H0|done|done].
    rewrite (app_assoc seg0 seg). rewrite IH.
    + cbn [sizes map resized fold_left fst snd]. by rewrite <- app_assoc.
    + by rewrite <- app_assoc.
    + done.
    + cbn in Hlen. lia.
Qed.






(** A chunk of literal bytes and directives in a turn: the literal bytes go
    to the PTY and the sizes are installed. *)
Lemma on_stdin_interleave (t : tick) (s : session) (seg0 : bytes)
    (items : list (bytes * bytes * bytes)) :
  t_read_in t = Returns (seg0 ++ interleave items) ->
  seg0 ++ interleave items ≠ [] ->
  t_ioctl t = Returns tt -> t_write_pty t = Returns tt ->
  find RESIZE (seg0 ++ literals items) = None -> Forall plain_item items ->
  exists s',
    on_stdin t s = (Ok true, s')
    /\ pty_in s' = pty_in s ++ seg0 ++ literals items
    /\ applied s' = applied s ++ sizes items
    /\ winsize s' = List.last (sizes items) (winsize s)
    /\ host_out s' = host_out s
    /\ stdin_flags s' = stdin_flags s.
Proof.
  intros Hin Hne Hio Hw H0 Hit. unfold on_stdin. rewrite Hin.
  destruct (seg0 ++ interleave items) as [|d data] eqn:Hd; [done|].
  unfold strip_resize. rewrite <- Hd, Hio.
  rewrite (scan_interleave items _ seg0 s H0 Hit).
  2:{ rewrite length_app. pose proof (interleave_length items). lia. }
  destruct (resized_spec (sizes items) s) as (Ha & Hz & Hp & Hh & Hf).
  destruct (seg0 ++ literals items) as [|d1 data1].
  - eexists. split; [reflexivity|]. by rewrite app_nil_r.
  - rewrite Hw. eexists. split; [reflexivity|]. cbn. by rewrite Hp.
Qed.



Lemma resize_at_follows (io : sys unit) (start : nat) (data : bytes)
    (s s' : session) (r : res bytes) :
  resize_at io start data s = (r, s') -> follows s s'.
Proof.
  destruct (resize_at_cases io start data s)
    as [(e & c & r' & _ & _ & _ & _ & ->)|[[_ ->]|[[_ ->]|[_ ->]]]];
    intros [= <- <-]; auto with follows.
Qed.

Lemma scan_follows (fuel : nat) (io : sys unit) (data : bytes)
    (s s' : session) (r : res bytes) :
  scan fuel io data s = (r, s') -> follows s s'.
Proof.
  revert data s. induction fuel as [|fuel IH]; intros data s; cbn [scan];
    destruct (find RESIZE data) as [start|]; try (intros [= <- <-]; auto with follows).
  destruct (resize_at io start data s) as [[data1|e|] s1] eqn:Hr;
    apply resize_at_follows in Hr.
  - intros Hs%IH. by eapply follows_trans.
  - destruct e; by intros [= <- <-].
  - by intros [= <- <-].
Qed.

Lemma on_pty_follows (t : tick) (s s' : session) (r : bool) :
  on_pty t s = (r, s') -> follows s s'.
Proof.
  unfold on_pty. destruct (t_read_pty t) as [[|d data]|];
    try (intros [= <- <-]; auto with follows).
  destruct (t_write_out t); intros [= <- <-]; auto with follows.
Qed.

Lemma on_stdin_follows (t : tick) (s s' : session) (r : res bool) :
  on_stdin t s = (r, s') -> follows s s'.
Proof.
  unfold on_stdin, strip_resize. destruct (t_read_in t) as [[|d data]|];
    try (intros [= <- <-]; auto with follows).
  destruct (scan _ _ _ s) as [[data1|e|] s1] eqn:Hs; apply scan_follows in Hs.
  - destruct data1 as [|d1 data1]; [by intros [= <- <-]|].
    destruct (t_write_pty t); intros [= <- <-]; [|done].
    eapply follows_trans; eauto with follows.
  - destruct e; by intros [= <- <-].
  - by intros [= <- <-].
Qed.

Lemma serve_follows (t : tick) (ready : bool * bool) (s s' : session) (r : res bool) :
  serve t ready s = (r, s') -> follows s s'.
Proof.
  unfold serve. destruct ready as [r1 r2]. cbn [fst snd].
  destruct r1.
  - destruct (on_pty t s) as [running s1] eqn:Hp. apply on_pty_follows in Hp.
    destruct (running && r2).
    + intros Hi%on_stdin_follows. by eapply follows_trans.
    + by intros [= <- <-].
  - cbn [andb]. destruct r2.
    + apply on_stdin_follows.
    + intros [= <- <-]. auto with follows.
Qed.

Lemma turn_follows (t : tick) (s s' : session) (r : option loop_end) :
  turn t s = (r, s') -> follows s s'.
Proof.
  unfold turn. destruct (t_select t) as [ready|]; [|intros [= <- <-]; auto with follows].
  destruct (serve t ready s) as [[running|e|] s1] eqn:Hs; apply serve_follows in Hs.
  - destruct (check_child (t_waitpid t)); by intros [= <- <-].
  - by intros [= <- <-].
  - by intros [= <- <-].
Qed.

Lemma loop_follows (ticks : list tick) (s s' : session) (e : loop_end) :
  loop ticks s = (e, s') -> follows s s'.
Proof.
  revert s. induction ticks as [|t ticks IH]; intros s; cbn [loop].
  - intros [= <- <-]. auto with follows.
  - destruct (turn t s) as [[e1|] s1] eqn:Ht; apply turn_follows in Ht.
    + by intros [= <- <-].
    + intros Hl%IH. by eapply follows_trans.
Qed.

Lemma turn_not_pending (t : tick) (s s' : session) :
  turn t s ≠ (Some Pending, s').
Proof.
  unfold turn. destruct (t_select t) as [ready|]; [|done].
  destruct (serve t ready s) as [[running|e|] s1]; try done.
  unfold check_child. destruct (t_waitpid t) as [|status|]; try done.
  - by destruct running.
  - by destruct (waitstatus_to_exitcode status).
Qed.

(** The loop after some turns and one more. *)
Lemma loop_app (ticks more : list tick) (s : session) :
  loop (ticks ++ more) s =
  match loop ticks s with
  | (Pending, s') => loop more s'
  | r => r
  end.
Proof.
  revert s. induction ticks as [|t ticks IH]; intros s; [reflexivity|].
  rewrite <- app_comm_cons. cbn [loop].
  destruct (turn t s) as [[e|] s1] eqn:Ht; [|apply IH].
  destruct e; try done. by apply turn_not_pending in Ht.
Qed.

End Scan.
End ScriptsFacts.

(** ** Facts about terminal_pty.py *)

Module TerminalFacts.
Import Py Posix Wire PyFacts PosixFacts TerminalPty.

Section Relay.
Context `{UnicodeDB}.

Lemma resize_head_follows (io : sys unit) (data : bytes)
    (s s' : session) (r : res bytes) :
  resize_head io data s = (r, s') -> follows s s'.
Proof.
  unfold resize_head. destruct (directive_at 0 data) as [[[e c] r']|e|];
    try (intros [= <- <-]; auto with follows).
  destruct (set_size io c r' s) as [[[]|e'|] s1] eqn:Hs;
    apply set_size_follows in Hs; by intros [= <- <-].
Qed.

Lemma strip_resize_follows (io : sys unit) (data : bytes)
    (s s' : session) (r : res bytes) :
  strip_resize io data s = (r, s') -> follows s s'.
Proof.
  unfold strip_resize. destruct (startswith RESIZE data);
    [|intros [= <- <-]; auto with follows].
  destruct (resize_head io data s) as [[data1|e|] s1] eqn:Hr;
    apply resize_head_follows in Hr; try by intros [= <- <-].
  destruct e; by intros [= <- <-].
Qed.

Lemma terminal_on_pty_follows (t : tick) (s s' : session) (r : bool) :
  on_pty t s = (r, s') -> follows s s'.
Proof.
  unfold on_pty. destruct (t_read_pty t) as [[|d data]|];
    try (intros [= <- <-]; auto with follows).
  destruct (t_write_out t); intros [= <- <-]; auto with follows.
Qed.

Lemma terminal_on_stdin_follows (t : tick) (s s' : session) (r : res unit) :
  on_stdin t s = (r, s') -> follows s s'.
Proof.
  unfold on_stdin. destruct (t_read_in t) as [[|d data]|];
    try (intros [= <- <-]; auto with follows).
  destruct (strip_resize _ _ s) as [[data1|e|] s1] eqn:Hs;
    apply strip_resize_follows in Hs.
  - destruct data1 as [|d1 data1]; [by intros [= <- <-]|].
    destruct (t_write_pty t); intros [= <- <-]; [|done].
    eapply follows_trans; eauto with follows.
  - destruct e; by intros [= <- <-].
  - by intros [= <- <-].
Qed.

Lemma terminal_serve_follows (t : tick) (ready : bool * bool)
    (s s' : session) (r : res unit) :
  serve t ready s = (r, s') -> follows s s'.
Proof.
  unfold serve. destruct ready as [r1 r2]. cbn [fst snd].
  destruct r1.
  - destruct (on_pty t s) as [go_on s1] eqn:Hp. apply terminal_on_pty_follows in Hp.
    destruct (go_on && r2).
    + intros Hi%terminal_on_stdin_follows. by eapply follows_trans.
    + by intros [= <- <-].
  - cbn [andb]. destruct r2.
    + apply terminal_on_stdin_follows.
    + intros [= <- <-]. auto with follows.
Qed.

Lemma terminal_turn_follows (t : tick) (s s' : session) (r : option loop_end) :
  turn t s = (r, s') -> follows s s'.
Proof.
  unfold turn. destruct (t_select t) as [ready|]; [|intros [= <- <-]; auto with follows].
  destruct (serve t ready s) as [[[]|e|] s1] eqn:Hs; apply terminal_serve_follows in Hs;
    by intros [= <- <-].
Qed.

Lemma terminal_loop_follows (ticks : list tick) (s s' : session) (e : loop_end) :
  loop ticks s = (e, s') -> follows s s'.
Proof.
  revert s. induction ticks as [|t ticks IH]; intros s; cbn [loop].
  - intros [= <- <-]. auto with follows.
  - destruct (turn t s) as [[e1|] s1] eqn:Ht; apply terminal_turn_follows in Ht.
    + by intros [= <- <-].
    + intros Hl%IH. by eapply follows_trans.
Qed.

(** With host input at its end and the shell running, a turn changes
    nothing and the loop goes on. *)
Lemma turn_eof (t : tick) (s : session) : eof_turn t -> turn t s = (None, s).
Proof.
  intros (Hsel & Hin & Hw). unfold turn, serve, on_stdin.
  rewrite Hsel. cbn [fst snd andb]. rewrite Hin, Hw. done.
Qed.

Lemma loop_eof (ticks : list tick) (s : session) :
  Forall eof_turn ticks -> loop ticks s = (Pending, s).
Proof.
  induction 1 as [|t ticks Ht _ IH]; [done|].
  cbn [loop]. by rewrite (turn_eof _ _ Ht).
Qed.

End Relay.
End TerminalFacts.

(** ** The POSIX helpers as processes *)

Module MainFacts.
Import Py Posix Wire PyFacts PosixFacts.

Lemma set_size_flags (io : sys unit) (cols rows : Z) (s s' : session) (r : res unit) :
  set_size io cols rows s = (r, s') -> stdin_flags s' = stdin_flags s.
Proof. intros Hs%set_size_follows. apply Hs. Qed.

Lemma set_size_no_fuel (io : sys unit) (cols rows : Z) (s : session) :
  (set_size io cols rows s).1 ≠ Fuel.
Proof.
  by destruct (set_size_cases io cols rows s) as [[-> _]|[->| ->]].
Qed.

Lemma check_child_no_fuel (w : waited) : check_child w ≠ Some NoFuel.
Proof.
  destruct w as [|status|]; try done. unfold check_child, waitstatus_to_exitcode.
  destruct (WIFEXITED status); [done|]. by destruct (WIFSIGNALED status).
Qed.

Lemma follows_flags (s s' : session) : follows s s' -> stdin_flags s' = stdin_flags s.
Proof. by intros [? _]. Qed.

Section Scripts.
Context `{UnicodeDB}.
Import ScriptsPty ScriptsFacts.

Lemma scripts_on_stdin_no_fuel (t : tick) (s : session) : (on_stdin t s).1 ≠ Fuel.
Proof.
  unfold on_stdin, strip_resize. destruct (t_read_in t) as [[|d data]|]; try done.
  pose proof (scan_fuel_enough (length (d :: data)) (t_ioctl t) (d :: data) s
                (le_n _)) as Hf.
  destruct (scan _ _ _ s) as [[[|d1 data1]|e|] s1]; try done.
  - by destruct (t_write_pty t).
  - by destruct e.
Qed.

Lemma scripts_turn_no_fuel (t : tick) (s s' : session) :
  turn t s ≠ (Some NoFuel, s').
Proof.
  unfold turn. destruct (t_select t) as [[r1 r2]|]; [|done].
  assert (Hs : (serve t (r1, r2) s).1 ≠ Fuel).
  { unfold serve. cbn [fst snd]. destruct r1.
    - destruct (on_pty t s) as [running s1]. destruct (running && r2); [|done].
      apply scripts_on_stdin_no_fuel.
    - cbn [andb]. destruct r2; [apply scripts_on_stdin_no_fuel | done]. }
  destruct (serve t (r1, r2) s) as [[running|e|] s1]; try done.
  pose proof (check_child_no_fuel (t_waitpid t)).
  destruct (check_child (t_waitpid t)) as [e|]; [congruence|].
  by destruct running.
Qed.

Lemma scripts_loop_no_fuel (ticks : list tick) (s s' : session) :
  loop ticks s ≠ (NoFuel, s').
Proof.
  revert s. induction ticks as [|t ticks IH]; intros s; cbn [loop]; [done|].
  destruct (turn t s) as [[e|] s1] eqn:Ht; [|apply IH].
  intros [= -> ->]. by apply scripts_turn_no_fuel in Ht.
Qed.

(** [main] while the loop is turning. *)
Lemma scripts_main_running (cols rows : Z) (boot : sys unit) (ticks : list tick)
    (s0 s : session) :
  main cols rows boot ticks s0 = (Running, s) <->
  exists s1, set_size boot cols rows s0 = (Ok tt, s1)
             /\ loop ticks (set_stdin_flags (Z.lor (stdin_flags s1) O_NONBLOCK) s1)
                = (Pending, s).
Proof.
  unfold main. destruct (set_size boot cols rows s0) as [[[]|e|] s1].
  - cbn zeta. destruct (loop ticks _) as [e s3] eqn:Hl. split.
    + destruct e as [|e| |]; try done; [by destruct e|]. intros [= <-]. eauto.
    + intros (s1' & [= <-] & Hl'). rewrite Hl in Hl'. by injection Hl' as -> ->.
  - split; [by destruct e | by intros (? & ? & _)].
  - split; [done | by intros (? & ? & _)].
Qed.

(** [main] once the loop is left: the [finally] clause has run. *)
Lemma scripts_main_left (cols rows : Z) (boot : sys unit) (ticks : list tick)
    (s0 s1 s2 : session) (e : loop_end) :
  set_size boot cols rows s0 = (Ok tt, s1) ->
  loop ticks (set_stdin_flags (Z.lor (stdin_flags s1) O_NONBLOCK) s1) = (e, s2) ->
  e ≠ Pending ->
  main cols rows boot ticks s0 = (proc_of e, set_stdin_flags (stdin_flags s1) s2).
Proof.
  intros Hb Hl He. unfold main. rewrite Hb. cbn zeta. rewrite Hl. by destruct e.
Qed.

End Scripts.

Section Terminal.
Context `{UnicodeDB}.
Import TerminalPty TerminalFacts.

Lemma terminal_turn_no_fuel (t : tick) (s s' : session) :
  turn t s ≠ (Some NoFuel, s').
Proof.
  unfold turn. destruct (t_select t) as [[r1 r2]|]; [|done].
  assert (Hi : forall s, (on_stdin t s).1 ≠ Fuel).
  { intros s1. unfold on_stdin, strip_resize, resize_head.
    destruct (t_read_in t) as [[|d data]|]; try done.
    destruct (startswith RESIZE (d :: data)).
    - destruct (directive_at_cases 0 (d :: data)) as [(e & c & r & -> & _)| ->].
      + destruct (set_size_cases (t_ioctl t) c r s1) as [[-> _]|[->| ->]]; try done.
        destruct (drop (e + 1) (d :: data)); [done|]. by destruct (t_write_pty t).
      + by destruct (t_write_pty t).
    - by destruct (t_write_pty t). }
  assert (Hs : (serve t (r1, r2) s).1 ≠ Fuel).
  { unfold serve. cbn [fst snd]. destruct r1.
    - destruct (on_pty t s) as [go_on s1]. destruct (go_on && r2); [apply Hi | done].
    - cbn [andb]. destruct r2; [apply Hi | done]. }
  destruct (serve t (r1, r2) s) as [[[]|e|] s1]; try done.
  pose proof (check_child_no_fuel (t_waitpid t)). congruence.
Qed.

Lemma terminal_loop_no_fuel (ticks : list tick) (s s' : session) :
  loop ticks s ≠ (NoFuel, s').
Proof.
  revert s. induction ticks as [|t ticks IH]; intros s; cbn [loop]; [done|].
  destruct (turn t s) as [[e|] s1] eqn:Ht; [|apply IH].
  intros [= -> ->]. by apply terminal_turn_no_fuel in Ht.
Qed.

End Terminal.
End MainFacts.

(** ** The claims on the POSIX helpers *)

Section PosixClaims.
Import Py Posix Wire PyFacts PosixFacts MainFacts.
Context `{UnicodeDB}.

Lemma flags_after_scripts (cols rows : Z) (boot : sys unit) (ticks : list tick)
    (s0 : session) :
  flags_after (stdin_flags s0) (ScriptsPty.main cols rows boot ticks s0).
Proof.
  unfold flags_after, ScriptsPty.main.
  destruct (set_size boot cols rows s0) as [[[]|e|] s1] eqn:Hb.
  - pose proof (set_size_flags _ _ _ _ _ _ Hb) as Hf. cbn zeta.
    destruct (ScriptsPty.loop ticks _) as [e s3] eqn:Hl.
    pose proof (follows_flags _ _ (ScriptsFacts.loop_follows _ _ _ _ Hl)) as Hf3.
    destruct e as [|e| |]; cbn [fst snd proc_of]; try done.
    + by destruct e.
    + by apply scripts_loop_no_fuel in Hl.
    + cbn in Hf3. congruence.
  - apply set_size_flags in Hb. by destruct e.
  - by pose proof (set_size_no_fuel boot cols rows s0) as Hn; rewrite Hb in Hn.
Qed.

Lemma flags_after_terminal (cols rows : Z) (boot : sys unit) (ticks : list tick)
    (s0 : session) :
  flags_after (stdin_flags s0) (TerminalPty.main cols rows boot ticks s0).
Proof.
  unfold flags_after, TerminalPty.main.
  destruct (set_size boot cols rows s0) as [[[]|e|] s1] eqn:Hb.
  - pose proof (set_size_flags _ _ _ _ _ _ Hb) as Hf. cbn zeta.
    destruct (TerminalPty.loop ticks _) as [e s3] eqn:Hl.
    pose proof (follows_flags _ _
                  (TerminalFacts.terminal_loop_follows _ _ _ _ Hl)) as Hf3.
    destruct e as [|e| |]; cbn [fst snd proc_of]; try done.
    + by destruct e.
    + by apply terminal_loop_no_fuel in Hl.
    + cbn in Hf3. congruence.
  - apply set_size_flags in Hb. by destruct e.
  - by pose proof (set_size_no_fuel boot cols rows s0) as Hn; rewrite Hb in Hn.
Qed.

(** C10. In both POSIX helpers, however the relay loop is left ([sys.exit]
    on the child's exit, a [break], [running = False], or an exception that
    nothing catches), the process ends with the file-status flags of
    standard input that it found at the start; while the loop turns the
    flags are those with [O_NONBLOCK] added. The run always comes to one of
    the two. *)
Theorem stdin_flags_restored (cols rows : Z) (boot : sys unit)
    (ticks : list tick) (s0 : session) :
  flags_after (stdin_flags s0) (ScriptsPty.main cols rows boot ticks s0)
  /\ flags_after (stdin_flags s0) (TerminalPty.main cols rows boot ticks s0).
Proof. split; [apply flags_after_scripts | apply flags_after_terminal]. Qed.


(** C8 as amended. In [scripts/terminal_pty.py], when a turn leaves the
    relay loop by [break] or by [running = False] (an error of [select],
    the end of a stream, an I/O error, [ChildProcessError]), [main] returns
    after the [finally] clause and the process exits with status 0. *)
Theorem exit_zero_when_loop_left (cols rows : Z) (boot : sys unit)
    (ticks : list tick) (t : tick) (s0 s1 s2 : session) :
  ScriptsPty.main cols rows boot ticks s0 = (Running, s1) ->
  ScriptsPty.turn t s1 = (Some Broke, s2) ->
  ScriptsPty.main cols rows boot (ticks ++ [t]) s0
  = (Exited 0, set_stdin_flags (stdin_flags s0) s2).
Proof.
  intros (s' & Hb & Hl)%scripts_main_running Ht.
  rewrite <- (set_size_flags _ _ _ _ _ _ Hb).
  apply (scripts_main_left _ _ _ _ _ _ _ Broke Hb); [|done].
  rewrite ScriptsFacts.loop_app, Hl. cbn [ScriptsPty.loop]. by rewrite Ht.
Qed.

(** The reasons of C8, one by one. *)
Lemma turn_select_error (t : tick) (s : session) :
  t_select t = Fails -> ScriptsPty.turn t s = (Some Broke, s).
Proof. intros Hs. unfold ScriptsPty.turn. by rewrite Hs. Qed.

Lemma turn_stdin_eof (t : tick) (s : session) :
  eof_turn t -> ScriptsPty.turn t s = (Some Broke, s).
Proof.
  intros (Hsel & Hin & Hw).
  unfold ScriptsPty.turn, ScriptsPty.serve, ScriptsPty.on_stdin.
  rewrite Hsel. cbn [fst snd andb]. rewrite Hin, Hw. done.
Qed.

Lemma turn_pty_closed (t : tick) (s : session) (ready2 : bool) :
  t_select t = Returns (true, ready2) ->
  t_read_pty t = Returns [] \/ t_read_pty t = Fails ->
  t_waitpid t = StillRunning ->
  ScriptsPty.turn t s = (Some Broke, s).
Proof.
  intros Hsel Hrd Hw.
  unfold ScriptsPty.turn, ScriptsPty.serve, ScriptsPty.on_pty.
  rewrite Hsel. cbn [fst snd]. destruct Hrd as [-> | ->]; cbn [andb]; by rewrite Hw.
Qed.

Lemma turn_no_child (t : tick) (s s' : session) (ready : bool * bool) (running : bool) :
  t_select t = Returns ready ->
  ScriptsPty.serve t ready s = (Ok running, s') ->
  t_waitpid t = NoChild ->
  ScriptsPty.turn t s = (Some Broke, s').
Proof. intros Hsel Hs Hw. unfold ScriptsPty.turn. by rewrite Hsel, Hs, Hw. Qed.

(** C2 as amended. In [scripts/terminal_pty.py], for every exit code [N]
    from 0 to 255: when the [waitpid] call of a turn reports that the shell
    has exited with code [N], the helper exits with status [N], after the
    [finally] clause. *)
Theorem child_exit_code_relayed (N : Z) (cols rows : Z) (boot : sys unit)
    (ticks : list tick) (t : tick) (s0 s1 s2 : session)
    (ready : bool * bool) (running : bool) (status : Z) :
  (0 <= N <= 255)%Z ->
  WIFEXITED status = true -> WEXITSTATUS status = N ->
  ScriptsPty.main cols rows boot ticks s0 = (Running, s1) ->
  t_select t = Returns ready ->
  ScriptsPty.serve t ready s1 = (Ok running, s2) ->
  t_waitpid t = Reaped status ->
  ScriptsPty.main cols rows boot (ticks ++ [t]) s0
  = (Exited N, set_stdin_flags (stdin_flags s0) s2).
Proof.
  intros HN Hex Hcode (s' & Hb & Hl)%scripts_main_running Hsel Hs Hw.
  rewrite <- (set_size_flags _ _ _ _ _ _ Hb).
  assert (Hst : exit_status N = N).
  { unfold exit_status. change 255%Z with (Z.ones 8).
    rewrite Z.land_ones by lia. apply Z.mod_small. lia. }
  rewrite <- Hst at 1.
  apply (scripts_main_left _ _ _ _ _ _ _ (Raised (SystemExit N)) Hb); [|done].
  rewrite ScriptsFacts.loop_app, Hl. cbn [ScriptsPty.loop].
  unfold ScriptsPty.turn. rewrite Hsel, Hs, Hw.
  unfold check_child, waitstatus_to_exitcode. by rewrite Hex, Hcode.
Qed.

(** C3, the defect. In [terminal_pty.py], once host input is at its end
    and for as long as the shell runs, every turn of the loop finds
    standard input readable, reads [b''], does nothing with it and goes on:
    the relay never ends. *)
Theorem terminal_pty_spins_on_stdin_eof (cols rows : Z) (flags : Z)
    (ticks : list tick) :
  (0 <= cols <= 65535)%Z -> (0 <= rows <= 65535)%Z ->
  Forall eof_turn ticks ->
  (TerminalPty.main cols rows (Returns tt) ticks (fresh flags)).1 = Running.
Proof.
  intros Hc Hr Ht. unfold TerminalPty.main.
  rewrite (set_size_ok _ _ _ Hc Hr). cbn zeta.
  by rewrite (TerminalFacts.loop_eof _ _ Ht).
Qed.

(** The sibling [scripts/terminal_pty.py] leaves the loop at the first such
    turn and exits. *)
Lemma scripts_pty_ends_on_stdin_eof (cols rows : Z) (flags : Z)
    (t : tick) (ticks : list tick) :
  (0 <= cols <= 65535)%Z -> (0 <= rows <= 65535)%Z ->
  eof_turn t ->
  (ScriptsPty.main cols rows (Returns tt) (t :: ticks) (fresh flags)).1 = Exited 0.
Proof.
  intros Hc Hr Ht. unfold ScriptsPty.main.
  rewrite (set_size_ok _ _ _ Hc Hr). cbn zeta. cbn [ScriptsPty.loop].
  by rewrite (turn_stdin_eof _ _ Ht).
Qed.


(** The scan of a chunk never runs out of its budget. *)
Lemma strip_resize_ends (io : sys unit) (chunk : bytes) (s : session) :
  (ScriptsPty.strip_resize io chunk s).1 ≠ Fuel.
Proof. by apply ScriptsFacts.scan_fuel_enough. Qed.

(** What is forwarded is the chunk with spans cut out of it. *)
Lemma strip_resize_sublist (io : sys unit) (chunk data' : bytes) (s s' : session) :
  ScriptsPty.strip_resize io chunk s = (Ok data', s') -> data' `sublist_of` chunk.
Proof. apply ScriptsFacts.scan_sublist. Qed.

(** C4 as amended. In [scripts/terminal_pty.py], for a chunk of host input
    made of literal bytes and of well-formed directives whose numbers fit
    the device, in any number and at any place, where the literal bytes put
    together hold no introducer: the bytes written to the PTY are the
    literal bytes, unchanged and in their order, and the sizes of the
    directives are installed in their order. The literal bytes may hold
    [ESC], as in key sequences, and bytes that are no UTF-8. *)
Theorem literal_bytes_forwarded (t : tick) (s : session) (seg0 : bytes)
    (items : list (bytes * bytes * bytes)) :
  t_read_in t = Returns (seg0 ++ interleave items) ->
  seg0 ++ interleave items ≠ [] ->
  t_ioctl t = Returns tt -> t_write_pty t = Returns tt ->
  find RESIZE (seg0 ++ literals items) = None -> Forall plain_item items ->
  exists s',
    ScriptsPty.on_stdin t s = (Ok true, s')
    /\ pty_in s' = pty_in s ++ seg0 ++ literals items
    /\ applied s' = applied s ++ sizes items
    /\ winsize s' = List.last (sizes items) (winsize s).
Proof.
  intros Hin Hne Hio Hw H0 Hit.
  destruct (ScriptsFacts.on_stdin_interleave t s seg0 items Hin Hne Hio Hw H0 Hit)
    as (s' & Hs & Hp & Ha & Hz & _).
  by exists s'.
Qed.

Lemma scan_unparsed (fuel : nat) (io : sys unit) (start : nat) (data : bytes)
    (s : session) :
  find RESIZE data = Some start ->
  directive_at start data = Raise ValueError ->
  ScriptsPty.scan (S fuel) io data s = (Ok data, s).
Proof.
  intros Hf Hd. cbn [ScriptsPty.scan]. rewrite Hf.
  unfold ScriptsPty.resize_at. by rewrite Hd.
Qed.

Lemma directive_at_unparsed (pre payload post : bytes) :
  BEL ∉ payload -> parse_payload payload = Raise ValueError ->
  directive_at (length pre) (pre ++ RESIZE ++ payload ++ BEL :: post)
  = Raise ValueError.
Proof.
  intros Hb Hp. unfold directive_at.
  assert (Hbel : BEL ∉ RESIZE ++ payload).
  { rewrite not_elem_of_app. split; [|done]. rewrite RESIZE_eq. cbv. intros Hin.
    repeat (apply elem_of_cons in Hin as [Hin|Hin]; [discriminate|]).
    by apply elem_of_nil in Hin. }
  rewrite (app_assoc RESIZE).
  rewrite (index_after BEL _ pre _ post eq_refl Hbel). cbn [mbind res_bind].
  rewrite <- (app_assoc RESIZE), (app_assoc pre).
  rewrite (slice_middle (pre ++ RESIZE) payload).
  - by rewrite Hp.
  - rewrite length_app. done.
  - rewrite !length_app. change (length RESIZE) with 9%nat. lia.
Qed.

(** A payload that does not parse: the chunk is left as it is. *)
Lemma strip_resize_unparsed (io : sys unit) (pre payload post : bytes) (s : session) :
  find RESIZE pre = None -> BEL ∉ payload ->
  parse_payload payload = Raise ValueError ->
  ScriptsPty.strip_resize io (pre ++ RESIZE ++ payload ++ BEL :: post) s
  = (Ok (pre ++ RESIZE ++ payload ++ BEL :: post), s).
Proof.
  intros He Hb Hp. unfold ScriptsPty.strip_resize.
  assert (Hf : find RESIZE (pre ++ RESIZE ++ payload ++ BEL :: post)
               = Some (length pre)).
  { by apply find_RESIZE_behind. }
  destruct (length (pre ++ RESIZE ++ payload ++ BEL :: post)) as [|fuel] eqn:Hl.
  { rewrite !length_app in Hl. change (length RESIZE) with 9%nat in Hl. lia. }
  apply (scan_unparsed _ _ _ _ _ Hf). by apply directive_at_unparsed.
Qed.

(** An introducer with no terminator behind it: the chunk is left as it
    is. *)
Lemma strip_resize_unterminated (io : sys unit) (pre rest : bytes) (s : session) :
  find RESIZE pre = None -> BEL ∉ rest ->
  ScriptsPty.strip_resize io (pre ++ RESIZE ++ rest) s
  = (Ok (pre ++ RESIZE ++ rest), s).
Proof.
  intros He Hb. unfold ScriptsPty.strip_resize.
  assert (Hf : find RESIZE (pre ++ RESIZE ++ rest) = Some (length pre)).
  { by apply find_RESIZE_behind. }
  destruct (length (pre ++ RESIZE ++ rest)) as [|fuel] eqn:Hl.
  { rewrite !length_app in Hl. change (length RESIZE) with 9%nat in Hl. lia. }
  apply (scan_unparsed _ _ _ _ _ Hf). unfold directive_at.
  rewrite index_missing; [done|]. rewrite drop_app_length.
  rewrite not_elem_of_app. split; [|done]. rewrite RESIZE_eq. cbv. intros Hin.
  repeat (apply elem_of_cons in Hin as [Hin|Hin]; [discriminate|]).
  by apply elem_of_nil in Hin.
Qed.

Lemma parse_payload_non_numeric (cf rf : bytes) :
  ascii cf -> ascii rf -> x3b ∉ cf -> x3b ∉ rf ->
  int (map Byte.to_N cf) = Raise ValueError
  \/ int (map Byte.to_N rf) = Raise ValueError ->
  parse_payload (cf ++ [x3b] ++ rf) = Raise ValueError.
Proof.
  intros Hac Har Hsc Hsr Hint. unfold parse_payload.
  rewrite decode_ascii.
  2:{ apply Forall_app. split; [done|]. apply Forall_cons. split; [cbn; lia | done]. }
  cbn [mbind res_bind]. rewrite map_app. cbn [map app].
  change (Byte.to_N x3b) with 59%N.
  assert (Hno : forall l : bytes, x3b ∉ l -> 59%N ∉ map Byte.to_N l).
  { intros l Hl Hin. apply list_elem_of_fmap in Hin as (d & Hd & Hin).
    assert (d = x3b) as ->; [|done].
    apply (f_equal Byte.of_N) in Hd. rewrite Byte.of_to_N in Hd.
    by injection Hd as <-. }
  rewrite split_two by auto. cbn [unpack2 mbind res_bind].
  destruct (int_cases (map Byte.to_N cf)) as [[zc Hc]|Hc]; rewrite Hc;
    cbn [mbind res_bind]; [|done].
  destruct Hint as [Hi|Hi]; [congruence|]. by rewrite Hi.
Qed.

(** C6 as amended. In [scripts/terminal_pty.py], when the first introducer
    of a chunk starts a directive that carries two fields of which one at
    least is not a number for [int], the resize does nothing: the session is
    as before, no exception leaves the scan, and the chunk is forwarded as
    it is. What stands before the introducer may hold [ESC], and what
    stands behind the directive is free. *)
Theorem non_numeric_resize_is_noop (io : sys unit) (pre cf rf post : bytes)
    (s : session) :
  find RESIZE pre = None ->
  ascii cf -> ascii rf -> x3b ∉ cf -> x3b ∉ rf -> BEL ∉ cf -> BEL ∉ rf ->
  int (map Byte.to_N cf) = Raise ValueError
  \/ int (map Byte.to_N rf) = Raise ValueError ->
  ScriptsPty.strip_resize io (pre ++ RESIZE ++ cf ++ [x3b] ++ rf ++ [BEL] ++ post) s
  = (Ok (pre ++ RESIZE ++ cf ++ [x3b] ++ rf ++ [BEL] ++ post), s).
Proof.
  intros He Hac Har Hsc Hsr Hbc Hbr Hint.
  replace (pre ++ RESIZE ++ cf ++ [x3b] ++ rf ++ [BEL] ++ post)
    with (pre ++ RESIZE ++ (cf ++ [x3b] ++ rf) ++ BEL :: post)
    by (by rewrite <- !app_assoc).
  apply strip_resize_unparsed; [done| |by apply parse_payload_non_numeric].
  rewrite !not_elem_of_app. repeat split; try done.
  intros Hin. apply list_elem_of_singleton in Hin. discriminate.
Qed.

End PosixClaims.

(** ** Facts about terminal_win.py *)

Module WinFacts.
Import Py Wire Echo PyFacts TerminalWin.

(** *** The substitutions *)

Section Sub.
Variable matcher : bytes -> option nat.
Hypothesis matcher_head : forall d data, d ≠ ESC -> matcher (d :: data) = None.

Lemma re_sub_lit (seg rest : bytes) :
  ESC ∉ seg -> re_sub matcher 0 (seg ++ rest) = seg ++ re_sub matcher 0 rest.
Proof.
  induction seg as [|d seg IH]; intros Hs; [done|].
  apply not_elem_of_cons in Hs as [Hd Hs].
  rewrite <- !app_comm_cons. cbn [re_sub].
  rewrite matcher_head by done. by rewrite (IH Hs).
Qed.

Lemma re_sub_skip (k : nat) (gone rest : bytes) :
  length gone = k -> re_sub matcher k (gone ++ rest) = re_sub matcher 0 rest.
Proof.
  revert k. induction gone as [|d gone IH]; intros k Hk.
  - by subst k.
  - destruct k as [|k]; [done|]. rewrite <- app_comm_cons. cbn [re_sub].
    apply IH. by injection Hk.
Qed.

(** A match at the head is dropped whole. *)
Lemma re_sub_match (hit rest : bytes) :
  hit ≠ [] -> matcher (hit ++ rest) = Some (length hit) ->
  re_sub matcher 0 (hit ++ rest) = re_sub matcher 0 rest.
Proof.
  intros Hne Hm. destruct hit as [|d hit]; [done|].
  rewrite <- app_comm_cons in *. cbn [re_sub]. rewrite Hm. cbn [length].
  by apply re_sub_skip.
Qed.

(** A sequence that starts with [ESC], holds no other [ESC] and is no match
    is kept whole. *)
Lemma re_sub_pass (tail rest : bytes) :
  ESC ∉ tail -> matcher (ESC :: tail ++ rest) = None ->
  re_sub matcher 0 (ESC :: tail ++ rest) = ESC :: tail ++ re_sub matcher 0 rest.
Proof.
  intros Ht Hm. cbn [re_sub]. rewrite Hm. by rewrite re_sub_lit.
Qed.

End Sub.

Lemma tolower_esc (d : byte) : tolower d = ESC -> d = ESC.
Proof. destruct d; cbv; congruence. Qed.

Lemma startswith_ci_head (pat data : bytes) (d : byte) :
  d ≠ ESC -> startswith_ci (ESC :: pat) (d :: data) = false.
Proof.
  intros Hd. cbn [startswith_ci]. apply andb_false_iff. left.
  apply byte_eqb_neq. intros Heq. apply Hd, tolower_esc. by rewrite <- Heq.
Qed.

Lemma RESIZE_RE_head (d : byte) (data : bytes) :
  d ≠ ESC -> RESIZE_RE (d :: data) = None.
Proof.
  intros Hd. unfold RESIZE_RE. by rewrite startswith_ci_head.
Qed.

Lemma literal_head (pat : bytes) (d : byte) (data : bytes) :
  d ≠ ESC -> literal (ESC :: pat) (d :: data) = None.
Proof. intros Hd. unfold literal. by rewrite startswith_head_neq. Qed.

Lemma digits_span_digits (ds rest : bytes) :
  digits ds ->
  match rest with
  | d :: _ => is_digit (Byte.to_N d) = false
  | [] => True
  end ->
  digits_span (ds ++ rest) = length ds.
Proof.
  intros Hd Hr. induction Hd as [|d ds Hd _ IH].
  - destruct rest as [|d rest]; [done|]. cbn. by rewrite Hr.
  - rewrite <- app_comm_cons. cbn [digits_span length]. by rewrite Hd, IH.
Qed.

Lemma word_bytes (word : bytes) :
  map tolower word = b "resize" ->
  (ESC ∉ word) /\ length word = 6%nat
  /\ forall rest,
       startswith_ci (ESC :: b "]RESIZE;") (ESC :: x5d :: word ++ x3b :: rest)
       = true.
Proof.
  intros Hw. assert (Hl : length word = 6%nat).
  { apply (f_equal length) in Hw. by rewrite length_map in Hw. }
  do 7 (destruct word as [|? word]; try discriminate Hl).
  injection Hw as H1 H2 H3 H4 H5 H6.
  split; [|split; [done|]].
  - intros Hin.
    repeat (apply elem_of_cons in Hin as [<-|Hin]; [discriminate|]).
    by apply elem_of_nil in Hin.
  - intros rest.
    change (ESC :: b "]RESIZE;")
      with [x1b; x5d; x52; x45; x53; x49; x5a; x45; x3b].
    cbn [app startswith_ci]. rewrite H1, H2, H3, H4, H5, H6. reflexivity.
Qed.

Lemma render_resize (word cols rows rest : bytes) :
  render (EchoResize word cols rows) ++ rest
  = ESC :: x5d :: word ++ x3b :: cols ++ x3b :: rows ++ BEL :: rest.
Proof.
  cbn [render]. change (b "]") with [x5d].
  cbn [app]. f_equal. f_equal.
  repeat (rewrite <- app_assoc; cbn [app]). reflexivity.
Qed.

Lemma render_resize_length (word cols rows : bytes) :
  length word = 6%nat ->
  length (render (EchoResize word cols rows))
  = (9 + length cols + 1 + length rows + 1)%nat.
Proof.
  intros Hl. cbn [render]. change (b "]") with [x5d].
  cbn [app length]. rewrite !length_app. cbn [length app]. rewrite !length_app.
  cbn [length]. rewrite !length_app. cbn [length]. lia.
Qed.

Lemma RESIZE_RE_echo (word cols rows rest : bytes) :
  echo_ok (EchoResize word cols rows) ->
  RESIZE_RE (render (EchoResize word cols rows) ++ rest)
  = Some (length (render (EchoResize word cols rows))).
Proof.
  intros (Hw & Hc0 & Hc & Hr0 & Hr).
  destruct (word_bytes word Hw) as (_ & Hl & Hci).
  rewrite (render_resize_length _ _ _ Hl), render_resize.
  unfold RESIZE_RE. rewrite Hci.
  replace (drop 9 (ESC :: x5d :: word ++ x3b :: cols ++ x3b :: rows ++ BEL :: rest))
    with (cols ++ x3b :: rows ++ BEL :: rest).
  2:{ do 7 (destruct word as [|? word]; try discriminate Hl). done. }
  rewrite (digits_span_digits cols) by done.
  pose proof (drop_app_length cols (x3b :: rows ++ BEL :: rest)) as Hdc.
  destruct cols as [|c0 cols]; [done|]. cbn [length] in *. rewrite Hdc.
  rewrite (digits_span_digits rows) by done.
  pose proof (drop_app_length rows (BEL :: rest)) as Hdr.
  destruct rows as [|r0 rows]; [done|]. cbn [length] in *. rewrite Hdr.
  rewrite !byte_eqb_refl. cbn [andb]. f_equal.
Qed.

Lemma RESIZE_RE_focus (e : echo) (rest : bytes) :
  e = FocusIn \/ e = FocusOut -> RESIZE_RE (render e ++ rest) = None.
Proof. by intros [-> | ->]. Qed.

(** What each of the three passes does to an echo. *)
Lemma FOCUS_IN_echo (e : echo) (rest : bytes) :
  echo_ok e ->
  FOCUS_IN_RE (render e ++ rest)
  = match e with FocusIn => Some (length (render e)) | _ => None end.
Proof.
  by destruct e as [word cols rows| |].
Qed.

Lemma FOCUS_OUT_echo (e : echo) (rest : bytes) :
  echo_ok e ->
  FOCUS_OUT_RE (render e ++ rest)
  = match e with FocusOut => Some (length (render e)) | _ => None end.
Proof.
  by destruct e as [word cols rows| |].
Qed.

(** An echo is [ESC] and then bytes that are not [ESC]. *)
Lemma render_tail (e : echo) :
  echo_ok e -> exists tail, render e = ESC :: tail /\ ESC ∉ tail.
Proof.
  destruct e as [word cols rows| |]; intros He.
  - destruct He as (Hw & _ & Hc & _ & Hr).
    destruct (word_bytes word Hw) as (Hesc & _ & _).
    eexists. split; [reflexivity|].
    change (b "]") with [x5d]. rewrite !not_elem_of_app. repeat split.
    + intros Hin. apply list_elem_of_singleton in Hin. discriminate.
    + done.
    + intros Hin. apply list_elem_of_singleton in Hin. discriminate.
    + by apply PosixFacts.digits_no.
    + intros Hin. apply list_elem_of_singleton in Hin. discriminate.
    + by apply PosixFacts.digits_no.
    + intros Hin. apply list_elem_of_singleton in Hin. discriminate.
  - eexists. split; [reflexivity|]. intros Hin.
    repeat (apply elem_of_cons in Hin as [Hin|Hin]; [discriminate|]).
    by apply elem_of_nil in Hin.
  - eexists. split; [reflexivity|]. intros Hin.
    repeat (apply elem_of_cons in Hin as [Hin|Hin]; [discriminate|]).
    by apply elem_of_nil in Hin.
Qed.

(** *** Matches and literal bytes *)

Lemma app_before_byte (p : byte) (tail rest u v : bytes) :
  p ∉ tail -> u ++ p :: v = tail ++ rest -> exists u', u = tail ++ u'.
Proof.
  revert u. induction tail as [|d tail IH]; intros u Hp Heq; [by exists u|].
  apply not_elem_of_cons in Hp as [Hd Hp].
  destruct u as [|c u]; [cbn in Heq; congruence|].
  rewrite <- !app_comm_cons in Heq. injection Heq as -> Heq.
  destruct (IH u Hp Heq) as [u' ->]. by exists u'.
Qed.

Lemma two_bytes_no_esc (x y : byte) : x ≠ ESC -> y ≠ ESC -> ESC ∉ [x; y].
Proof.
  intros Hx Hy Hin.
  apply elem_of_cons in Hin as [Hin|Hin]; [congruence|].
  apply elem_of_cons in Hin as [Hin|Hin]; [congruence|].
  by apply elem_of_nil in Hin.
Qed.

Lemma no_match_app (matcher : bytes -> option nat) (seg rest : bytes) :
  no_match matcher (seg ++ rest) = true -> no_match matcher rest = true.
Proof.
  induction seg as [|d seg IH]; [done|]. rewrite <- app_comm_cons.
  cbn [no_match]. destruct (matcher (d :: seg ++ rest)); [done | exact IH].
Qed.

Lemma startswith_more (pat data more : bytes) :
  startswith pat data = true -> startswith pat (data ++ more) = true.
Proof.
  intros [rest ->]%startswith_spec. rewrite <- app_assoc. apply startswith_app.
Qed.

Lemma digits_span_take (data : bytes) : digits (take (digits_span data) data).
Proof.
  induction data as [|d data IH]; [constructor|]. cbn [digits_span].
  destruct (is_digit (Byte.to_N d)) eqn:Hd; [|constructor].
  cbn [take]. by constructor.
Qed.

Lemma digits_span_le (data : bytes) : (digits_span data <= length data)%nat.
Proof.
  induction data as [|d data IH]; [done|]. cbn [digits_span length].
  destruct (is_digit (Byte.to_N d)); lia.
Qed.

Lemma tolower_fixed (d : byte) :
  (tolower d = x5d -> d = x5d) /\ (tolower d = x3b -> d = x3b).
Proof. destruct d; cbv; split; congruence. Qed.

(** What [RESIZE_RE] matches at the head of the data is an echo of the
    directive, and the length of the match is the length of the echo. *)
Lemma RESIZE_RE_inv (data : bytes) (k : nat) :
  RESIZE_RE data = Some k ->
  exists word cols rows rest,
    data = render (EchoResize word cols rows) ++ rest
    /\ echo_ok (EchoResize word cols rows)
    /\ k = length (render (EchoResize word cols rows)).
Proof.
  unfold RESIZE_RE. destruct (startswith_ci _ data) eqn:Hs; [|done].
  change (ESC :: b "]RESIZE;")
    with [x1b; x5d; x52; x45; x53; x49; x5a; x45; x3b] in Hs.
  destruct data as [|c0 [|c1 [|w1 [|w2 [|w3 [|w4 [|w5 [|w6 [|c8 data]]]]]]]]];
    try (cbn [startswith_ci] in Hs; rewrite ?andb_false_r in Hs; discriminate Hs).
  cbn [startswith_ci] in Hs. rewrite !andb_true_iff in Hs.
  destruct Hs as (H0 & H1 & H2 & H3 & H4 & H5 & H6 & H7 & H8 & _).
  rewrite !byte_eqb_eq in *.
  symmetry in H0. apply tolower_esc in H0 as ->.
  symmetry in H1. apply tolower_fixed in H1 as ->.
  symmetry in H8. apply tolower_fixed in H8 as ->.
  cbn [drop]. rewrite !drop_0.
  pose proof (digits_span_take data) as Hc.
  pose proof (digits_span_le data) as Hcl.
  pose proof (take_drop (digits_span data) data) as Hcd.
  destruct (digits_span data) as [|n1] eqn:Hn1; [done|].
  destruct (drop (S n1) data) as [|sep rows] eqn:Hd1; [done|].
  pose proof (digits_span_take rows) as Hr.
  pose proof (digits_span_le rows) as Hrl.
  pose proof (take_drop (digits_span rows) rows) as Hrd.
  destruct (digits_span rows) as [|n2] eqn:Hn2; [done|].
  destruct (drop (S n2) rows) as [|bel rest] eqn:Hd2; [done|].
  destruct (Byte.eqb sep x3b) eqn:Hsep; [|done].
  destruct (Byte.eqb bel BEL) eqn:Hbel; [|done].
  apply byte_eqb_eq in Hsep as ->. apply byte_eqb_eq in Hbel as ->.
  intros [= <-].
  exists [w1; w2; w3; w4; w5; w6], (take (S n1) data), (take (S n2) rows), rest.
  assert (Hlc : length (take (S n1) data) = S n1) by (rewrite length_take; lia).
  assert (Hlr : length (take (S n2) rows) = S n2) by (rewrite length_take; lia).
  split; [|split].
  - rewrite render_resize. cbn [app]. do 9 f_equal.
    rewrite <- Hcd at 1. f_equal. f_equal. by rewrite <- Hrd at 1.
  - cbn [echo_ok map]. rewrite <- H2, <- H3, <- H4, <- H5, <- H6, <- H7.
    split; [reflexivity|].
    split; [by intros Hnil; rewrite Hnil in Hlc|]. split; [done|].
    split; [by intros Hnil; rewrite Hnil in Hlr | done].
  - rewrite render_resize_length by done. rewrite Hlc, Hlr. lia.
Qed.

Section Pieces.
Variable matcher : bytes -> option nat.
Variable goes : echo -> bool.
Hypothesis matcher_head : forall d data, d ≠ ESC -> matcher (d :: data) = None.
Hypothesis matcher_near : forall u v k,
  u ≠ [] -> matcher (u ++ ESC :: v) = Some k -> matcher u = Some k.
Hypothesis matcher_more : forall u w k,
  matcher u = Some k -> matcher (u ++ w) = Some k.
Hypothesis matcher_echo : forall e rest, echo_ok e ->
  matcher (render e ++ rest) = if goes e then Some (length (render e)) else None.

(** A match that starts in literal bytes ends before the next echo, so it
    is a match in the literal bytes put together. *)
Lemma match_in_literals (ps : list piece) :
  Forall piece_ok ps -> forall (u : bytes) (k : nat),
  u ≠ [] -> matcher (u ++ flatten ps) = Some k ->
  matcher (u ++ literal_part ps) = Some k.
Proof.
  unfold flatten, literal_part.
  induction 1 as [|p ps Hp _ IH]; intros u k Hu Hm; [done|].
  destruct p as [seg|e]; cbn [flat_map piece_bytes] in *.
  - rewrite app_assoc in *. apply IH; [|done]. by destruct u.
  - destruct (render_tail e Hp) as (tail & Ht & _). rewrite Ht in Hm.
    cbn [app] in Hm.
    apply matcher_near in Hm; [|done]. cbn [app]. by apply matcher_more.
Qed.

Lemma re_sub_literal (ps : list piece) (seg : bytes) :
  Forall piece_ok ps ->
  no_match matcher (seg ++ literal_part ps) = true ->
  re_sub matcher 0 (seg ++ flatten ps) = seg ++ re_sub matcher 0 (flatten ps).
Proof.
  intros Hps. induction seg as [|d seg IH]; [done|].
  rewrite <- !app_comm_cons. cbn [no_match].
  destruct (matcher (d :: seg ++ literal_part ps)) eqn:Hl; [done|]. intros Hn.
  cbn [re_sub].
  destruct (matcher (d :: seg ++ flatten ps)) as [k|] eqn:Hm.
  - apply (match_in_literals ps Hps (d :: seg) k) in Hm; [|done].
    rewrite <- app_comm_cons in Hm. congruence.
  - by rewrite IH.
Qed.

(** One pass over a chunk of literal bytes and echoes: the echoes that the
    pattern matches go, everything else stays. *)
Lemma re_sub_pieces (ps : list piece) :
  Forall piece_ok ps -> no_match matcher (literal_part ps) = true ->
  re_sub matcher 0 (flatten ps)
  = flatten (List.filter (fun p => match p with
                                   | Lit _ => true
                                   | Nuisance e => negb (goes e)
                                   end) ps).
Proof.
  intros Hps. induction Hps as [|p ps Hp Hps IH]; [done|]. intros Hn.
  destruct p as [seg|e].
  - change (flatten (Lit seg :: ps)) with (seg ++ flatten ps).
    change (literal_part (Lit seg :: ps)) with (seg ++ literal_part ps) in Hn.
    rewrite re_sub_literal by done. rewrite IH by (by apply no_match_app in Hn).
    done.
  - change (flatten (Nuisance e :: ps)) with (render e ++ flatten ps).
    change (literal_part (Nuisance e :: ps)) with (literal_part ps) in Hn.
    destruct (render_tail e Hp) as (tail & Ht & Hesc).
    pose proof (matcher_echo e (flatten ps) Hp) as Hm.
    cbn [List.filter]. destruct (goes e) eqn:Hg; cbn [negb].
    + rewrite re_sub_match; [by apply IH | by rewrite Ht | done].
    + change (flatten (Nuisance e :: ?l)) with (render e ++ flatten l).
      rewrite Ht in *. rewrite <- !app_comm_cons in *.
      rewrite re_sub_pass by done. by rewrite IH.
Qed.

End Pieces.

Lemma literal_part_filter (keep : echo -> bool) (ps : list piece) :
  literal_part (List.filter (fun p => match p with
                                      | Lit _ => true
                                      | Nuisance e => keep e
                                      end) ps)
  = literal_part ps.
Proof.
  unfold literal_part. induction ps as [|[seg|e] ps IH]; [done| |].
  - cbn [List.filter flat_map]. by rewrite IH.
  - cbn [List.filter flat_map]. destruct (keep e); cbn [flat_map app]; exact IH.
Qed.

Lemma filter_piece_ok (keep : piece -> bool) (ps : list piece) :
  Forall piece_ok ps -> Forall piece_ok (List.filter keep ps).
Proof.
  induction 1 as [|p ps Hp _ IH]; [done|]. cbn [List.filter].
  destruct (keep p); [by constructor | done].
Qed.

(** The look-ahead of the three patterns: a second [ESC] ends it, and what
    stands behind a match has no part in it. *)
Lemma literal_near (pat u v : bytes) (k : nat) :
  ESC ∉ pat -> u ≠ [] ->
  literal (ESC :: pat) (u ++ ESC :: v) = Some k -> literal (ESC :: pat) u = Some k.
Proof.
  intros Hp Hu. unfold literal. destruct u as [|d u]; [done|].
  rewrite <- app_comm_cons. cbn [startswith].
  destruct (Byte.eqb ESC d); [|done]. cbn [andb].
  destruct (startswith pat u) eqn:Hs; [by rewrite startswith_more|].
  by rewrite startswith_behind.
Qed.

Lemma literal_more (pat u w : bytes) (k : nat) :
  literal pat u = Some k -> literal pat (u ++ w) = Some k.
Proof.
  unfold literal. destruct (startswith pat u) eqn:Hs; [|done].
  by rewrite startswith_more.
Qed.

Lemma RESIZE_RE_more (u w : bytes) (k : nat) :
  RESIZE_RE u = Some k -> RESIZE_RE (u ++ w) = Some k.
Proof.
  intros (word & cols & rows & rest & -> & He & ->)%RESIZE_RE_inv.
  rewrite <- app_assoc. by apply RESIZE_RE_echo.
Qed.

Lemma RESIZE_RE_near (u v : bytes) (k : nat) :
  u ≠ [] -> RESIZE_RE (u ++ ESC :: v) = Some k -> RESIZE_RE u = Some k.
Proof.
  intros Hu (word & cols & rows & rest & Hd & He & ->)%RESIZE_RE_inv.
  destruct (render_tail _ He) as (tail & Ht & Hesc). rewrite Ht in *.
  destruct u as [|d u]; [done|]. rewrite <- !app_comm_cons in Hd.
  injection Hd as -> Hd.
  assert (Hpre : exists u', u = tail ++ u') by (by eapply app_before_byte).
  destruct Hpre as [u' ->]. rewrite app_comm_cons, <- Ht.
  by apply RESIZE_RE_echo.
Qed.

(** The three substitutions, one after the other, on a chunk of literal
    bytes and echoes. *)
Lemma filter_output_pieces (ps : list piece) :
  Forall piece_ok ps -> clean (literal_part ps) ->
  filter_output (flatten ps) = literal_part ps.
Proof.
  intros Hps (Hn1 & Hn2 & Hn3). unfold filter_output.
  rewrite (re_sub_pieces RESIZE_RE
             (fun e => match e with EchoResize _ _ _ => true | _ => false end)
             RESIZE_RE_head RESIZE_RE_near RESIZE_RE_more).
  2:{ intros [word cols rows| |] rest He; [by apply RESIZE_RE_echo | done | done]. }
  2:{ done. }
  2:{ done. }
  rewrite (re_sub_pieces FOCUS_IN_RE
             (fun e => match e with FocusIn => true | _ => false end)).
  2:{ intros d data Hd. by apply literal_head. }
  2:{ intros u v k. apply literal_near. by apply two_bytes_no_esc. }
  2:{ apply literal_more. }
  2:{ intros e rest He. rewrite (FOCUS_IN_echo _ _ He). by destruct e. }
  2:{ by apply filter_piece_ok. }
  2:{ by rewrite literal_part_filter. }
  rewrite (re_sub_pieces FOCUS_OUT_RE
             (fun e => match e with FocusOut => true | _ => false end)).
  2:{ intros d data Hd. by apply literal_head. }
  2:{ intros u v k. apply literal_near. by apply two_bytes_no_esc. }
  2:{ apply literal_more. }
  2:{ intros e rest He. rewrite (FOCUS_OUT_echo _ _ He). by destruct e. }
  2:{ by do 2 apply filter_piece_ok. }
  2:{ by rewrite !literal_part_filter. }
  clear. unfold flatten, literal_part.
  induction ps as [|[seg|[word cols rows| |]] ps IH];
    cbn [List.filter negb flat_map piece_bytes app]; by rewrite ?IH.
Qed.

(** *** The loop of the main thread *)

Section Relay.
Context `{UnicodeDB}.
Variable pty_set_size : Z -> Z -> res unit.
Variable sh : shell.

(** With no terminator ahead, not even the end of the input stops the
    inner loop. *)
Lemma read_directive_no_bel (fuel : nat) (resize_data input : bytes) :
  BEL ∉ input -> read_directive fuel resize_data input = Fuel.
Proof.
  revert resize_data input. induction fuel as [|fuel IH];
    intros resize_data input Hb; [done|].
  cbn [read_directive]. destruct input as [|d input].
  - cbn. apply IH. apply not_elem_of_nil.
  - apply not_elem_of_cons in Hb as [Hd Hb].
    change (take 1 (d :: input)) with [d].
    change (drop 1 (d :: input)) with input.
    unfold bytes_eqb. cbn [length Nat.eqb startswith andb].
    assert (Byte.eqb d BEL = false) as -> by (by apply byte_eqb_neq).
    cbn [andb]. by apply IH.
Qed.

(** With a terminator ahead, the inner loop returns the bytes before it. *)
Lemma read_directive_bel (fuel : nat) (resize_data payload rest : bytes) :
  BEL ∉ payload -> (length payload < fuel)%nat ->
  read_directive fuel resize_data (payload ++ BEL :: rest)
  = Ok (resize_data ++ payload, rest).
Proof.
  revert resize_data payload. induction fuel as [|fuel IH];
    intros resize_data payload Hb Hlen; [lia|].
  cbn [read_directive]. destruct payload as [|d payload].
  - cbn. by rewrite app_nil_r.
  - apply not_elem_of_cons in Hb as [Hd Hb]. rewrite <- app_comm_cons.
    change (take 1 (d :: payload ++ BEL :: rest)) with [d].
    change (drop 1 (d :: payload ++ BEL :: rest)) with (payload ++ BEL :: rest).
    unfold bytes_eqb. cbn [length Nat.eqb startswith andb].
    assert (Byte.eqb d BEL = false) as -> by (by apply byte_eqb_neq).
    cbn [andb]. rewrite IH by (cbn in Hlen; done || lia).
    by rewrite <- app_assoc.
Qed.

(** The loop at an introducer. *)
Lemma relay_introducer (fuel n : nat) (rest : bytes) (s : session) :
  alive sh n = true ->
  relay pty_set_size sh (S fuel) n (ESC :: b "]RESIZE" ++ rest) s
  = match read_directive fuel [] rest with
    | Ok (resize_data, input3) =>
        match apply_resize pty_set_size resize_data s with
        | (Ok _, s') => relay pty_set_size sh fuel (S n) input3 s'
        | (Raise (SystemExit code), s') => (Raise (SystemExit code), s')
        | (Raise _, s') => (Ok tt, s')
        | (Fuel, s') => (Fuel, s')
        end
    | Raise e => (Raise e, s)
    | Fuel => (Fuel, s)
    end.
Proof.
  intros Ha. cbn [relay]. rewrite Ha. cbn [negb].
  change (b "]RESIZE") with [x5d; x52; x45; x53; x49; x5a; x45].
  cbn [app take drop]. done.
Qed.

End Relay.
End WinFacts.

(** ** The claims on the Windows helper *)

Section WinClaims.
Import Py Posix Wire Echo PyFacts WinFacts.
Context `{UnicodeDB}.

(** C7, the defect. In [terminal_win.py], when host input ends inside a
    directive, after the introducer and before any terminator, the inner
    [while True] loop reads [b''] for ever: whatever the number of steps it
    is given, [main] has not come to an end. *)
Theorem win_truncated_directive_never_ends (pty_set_size : Z -> Z -> res unit)
    (sh : TerminalWin.shell) (fuel : nat) (payload : bytes)
    (s : TerminalWin.session) :
  (0 < TerminalWin.lifetime sh)%nat -> BEL ∉ payload ->
  TerminalWin.main pty_set_size sh fuel (ESC :: b "]RESIZE" ++ payload) s
  = (Stuck, s).
Proof.
  intros Hl Hb. unfold TerminalWin.main. destruct fuel as [|fuel]; [done|].
  rewrite relay_introducer.
  - by rewrite read_directive_no_bel.
  - unfold TerminalWin.alive. by apply Nat.ltb_lt.
Qed.

(** In the same helper a directive with its terminator is read to the end
    and the loop goes on behind it. *)
Lemma win_directive_consumed (pty_set_size : Z -> Z -> res unit)
    (sh : TerminalWin.shell) (fuel n : nat) (payload rest : bytes)
    (s s' : TerminalWin.session) :
  TerminalWin.alive sh n = true -> BEL ∉ payload -> (length payload < fuel)%nat ->
  TerminalWin.apply_resize pty_set_size payload s = (Ok tt, s') ->
  TerminalWin.relay pty_set_size sh (S fuel) n
    (ESC :: b "]RESIZE" ++ payload ++ BEL :: rest) s
  = TerminalWin.relay pty_set_size sh fuel (S n) rest s'.
Proof.
  intros Ha Hb Hlen Hr. rewrite relay_introducer by done.
  rewrite read_directive_bel by done. cbn [app]. by rewrite Hr.
Qed.

(** C5 as amended. The POSIX helper writes a non-empty chunk of PTY output
    to standard output as it is. The Windows helper, on a chunk made of
    literal bytes and of echoes (the resize directive with its word in any
    mix of cases, [ESC [ I], [ESC [ O]), in any number and at any place,
    where the literal bytes put together hold no match of its three
    patterns, forwards the literal bytes, unchanged and in their order. The
    literal bytes may hold [ESC], as colour and cursor sequences do. *)
Theorem output_forwarded (t : tick) (s : session) (data : bytes)
    (ps : list piece) :
  t_read_pty t = Returns data -> data ≠ [] -> t_write_out t = Returns tt ->
  Forall piece_ok ps -> clean (literal_part ps) ->
  ScriptsPty.on_pty t s = (true, write_host data s)
  /\ TerminalWin.filter_output (flatten ps) = literal_part ps.
Proof.
  intros Hr Hne Hw Hps Hcl. split.
  - unfold ScriptsPty.on_pty. rewrite Hr, Hw. by destruct data.
  - by apply filter_output_pieces.
Qed.

End WinClaims.

(** ** Concrete runs *)

Section Runs.
Import Py Posix Wire Echo.

Ltac absent :=
  let Hin := fresh "Hin" in
  intros Hin;
  repeat (apply elem_of_cons in Hin as [Hin|Hin]; [discriminate|]);
  by apply elem_of_nil in Hin.

Ltac all_bytes :=
  repeat (apply Forall_cons; split; [reflexivity|]); apply Forall_nil_2.

Ltac is_field :=
  split; [discriminate|]; split; [all_bytes | cbv; lia].

Ltac is_short_field :=
  split; [is_field | cbv; discriminate].



(** [terminal_pty.py] looks for a directive at the start of a chunk only:
    one byte before it, and the directive goes to the shell. *)
Example terminal_pty_only_looks_at_the_start :
  TerminalPty.strip_resize (H:=latin1_db) (Returns tt)
    (b "x" ++ directive (b "100") (b "40")) (fresh 0)
  = (Ok (b "x" ++ directive (b "100") (b "40")), fresh 0).
Proof. vm_compute. reflexivity. Qed.

(** C2, against the claim. On Windows the shell lives through one test of
    the loop condition and then exits with code 3; the helper leaves its
    loop and exits with status 0. *)
Lemma win_exit_ignores_shell_code :
  let sh := {| TerminalWin.exit_code := 3; TerminalWin.lifetime := 1 |} in
  (TerminalWin.main (H:=latin1_db) accept_all sh 10 (b "x")
     (TerminalWin.fresh 80 24)).1 = Exited 0
  /\ Exited 0 ≠ Exited (TerminalWin.exit_code sh).
Proof. split; [vm_compute; reflexivity | discriminate]. Qed.

Lemma child_exit_code_relayed_witness :
  exists s,
    ScriptsPty.main (H:=latin1_db) 80 24 (Returns tt)
      ([] ++ [stdin_turn (Returns (b "exit 3")) (Reaped 768)]) (fresh 0)
    = (Exited 3, s).
Proof.
  eexists.
  eapply (child_exit_code_relayed (H:=latin1_db) 3 80 24 (Returns tt) []
            (stdin_turn (Returns (b "exit 3")) (Reaped 768)) (fresh 0)
            _ _ (false, true) true 768).
  - lia.
  - reflexivity.
  - reflexivity.
  - vm_compute. reflexivity.
  - reflexivity.
  - vm_compute. reflexivity.
  - reflexivity.
Defined.

Lemma terminal_pty_spins_on_stdin_eof_witness :
  (TerminalPty.main (H:=latin1_db) 80 24 (Returns tt)
     [stdin_turn (Returns []) StillRunning;
      stdin_turn (Returns []) StillRunning;
      stdin_turn (Returns []) StillRunning] (fresh 0)).1 = Running.
Proof.
  apply (terminal_pty_spins_on_stdin_eof (H:=latin1_db) 80 24 0); [lia | lia |].
  repeat (apply Forall_cons; split; [by repeat split|]). apply Forall_nil_2.
Defined.

(** C4, against the claim. On Windows the byte [0xFF] and the byte [0xFE],
    neither of them part of a directive, reach the PTY as the same text,
    the replacement character U+FFFD. *)
Lemma win_replaces_bytes :
  TerminalWin.pty_in
    (TerminalWin.main (H:=latin1_db) accept_all
       {| TerminalWin.exit_code := 0; TerminalWin.lifetime := 10 |} 10 [xff]
       (TerminalWin.fresh 80 24)).2 = [65533%N]
  /\ TerminalWin.pty_in
       (TerminalWin.main (H:=latin1_db) accept_all
          {| TerminalWin.exit_code := 0; TerminalWin.lifetime := 10 |} 10 [xfe]
          (TerminalWin.fresh 80 24)).2 = [65533%N].
Proof. split; vm_compute; reflexivity. Qed.

(** In the POSIX helper, bytes that stand on the two sides of a directive
    and form an introducer once it is cut out are taken for a directive
    themselves: nothing of this chunk reaches the shell, and the size ends
    as 1 by 2. *)
Example splice_is_taken_for_a_directive :
  ScriptsPty.strip_resize (H:=latin1_db) (Returns tt)
    (ESC :: b "]RES" ++ directive (b "80") (b "24") ++ b "IZE;1;2" ++ [BEL])
    (fresh 0)
  = (Ok [], resized [(80, 24); (1, 2)]%Z (fresh 0)).
Proof. vm_compute. reflexivity. Qed.

Lemma literal_bytes_forwarded_witness :
  let up := ESC :: b "[A" in
  let items := [(b "100", b "40", ESC :: b "[B" ++ [xff; xfe]);
                (b "1", b "2", b "ef" ++ [ESC])] in
  exists s',
    ScriptsPty.on_stdin (H:=latin1_db)
      (stdin_turn (Returns (up ++ interleave items)) StillRunning) (fresh 0)
    = (Ok true, s')
    /\ pty_in s' = pty_in (fresh 0) ++ up ++ literals items
    /\ applied s' = applied (fresh 0) ++ sizes items
    /\ winsize s' = List.last (sizes items) (winsize (fresh 0)).
Proof.
  intros up items.
  apply (literal_bytes_forwarded (H:=latin1_db)).
  - reflexivity.
  - discriminate.
  - reflexivity.
  - reflexivity.
  - vm_compute. reflexivity.
  - repeat (apply Forall_cons; split; [split; is_short_field|]).
    apply Forall_nil_2.
Defined.

(** C5, against the claim. The chunk holds neither the introducer of the
    directive nor a focus report, only a sequence of the same shape with
    its word in lower case; the Windows filter drops all of it. *)
Lemma win_filter_drops_lowercase :
  let chunk := ESC :: b "]resize;1;2" ++ [BEL] in
  find RESIZE chunk = None
  /\ find (ESC :: b "[I") chunk = None
  /\ find (ESC :: b "[O") chunk = None
  /\ TerminalWin.filter_output chunk = []
  /\ chunk ≠ [].
Proof. repeat split; try (vm_compute; reflexivity). discriminate. Qed.

(** The three passes follow one another, so bytes that no pattern matches
    in the chunk can form a match once an earlier pass has cut between
    them. *)
Example win_filter_splice :
  TerminalWin.filter_output (ESC :: directive (b "1") (b "2") ++ b "[I") = [].
Proof. vm_compute. reflexivity. Qed.

Lemma output_forwarded_witness :
  let ps := [Lit (ESC :: b "[31mred" ++ ESC :: b "[0m");
             Nuisance (EchoResize (b "ReSiZe") (b "12") (b "345"));
             Lit (b "b" ++ [ESC]); Nuisance FocusIn; Nuisance FocusOut;
             Lit (b "]c")] in
  ScriptsPty.on_pty
    {| t_select := Returns (true, false); t_read_pty := Returns (b "hi");
       t_write_out := Returns tt; t_read_in := Fails; t_ioctl := Returns tt;
       t_write_pty := Returns tt; t_waitpid := StillRunning |} (fresh 0)
  = (true, write_host (b "hi") (fresh 0))
  /\ TerminalWin.filter_output (flatten ps) = literal_part ps.
Proof.
  intros ps. apply output_forwarded.
  - reflexivity.
  - discriminate.
  - reflexivity.
  - repeat (apply Forall_cons; split;
            [first [exact I
                   | split; [reflexivity|];
                     split; [discriminate|]; split; [all_bytes|];
                     split; [discriminate | all_bytes]]|]).
    apply Forall_nil_2.
  - repeat split; vm_compute; reflexivity.
Defined.

(** C6, against the claim. The session is 80 by 24 and the directive
    carries 0 columns: the size becomes 0 by 40. *)
Lemma zero_columns_are_applied :
  winsize
    (ScriptsPty.strip_resize (H:=latin1_db) (Returns tt)
       (directive (b "0") (b "40")) (with_winsize (80, 24)%Z (fresh 0))).2
  = (0, 40)%Z
  /\ (0, 40)%Z ≠ winsize (with_winsize (80, 24)%Z (fresh 0)).
Proof. split; [vm_compute; reflexivity | discriminate]. Qed.

(** Numbers that [struct.pack] refuses end the helper with a traceback:
    [struct.error] is caught nowhere. *)
Example oversized_columns_end_the_helper :
  (ScriptsPty.main (H:=latin1_db) 80 24 (Returns tt)
     [stdin_turn (Returns (directive (b "70000") (b "40"))) StillRunning]
     (fresh 0)).1 = Exited 1.
Proof. vm_compute. reflexivity. Qed.

Lemma non_numeric_resize_is_noop_witness :
  ScriptsPty.strip_resize (H:=latin1_db) (Returns tt)
    ((ESC :: b "[A") ++ RESIZE ++ b "abc" ++ [x3b] ++ b "40" ++ [BEL] ++ b "y")
    (with_winsize (80, 24)%Z (fresh 0))
  = (Ok ((ESC :: b "[A") ++ RESIZE ++ b "abc" ++ [x3b] ++ b "40" ++ [BEL]
         ++ b "y"),
     with_winsize (80, 24)%Z (fresh 0)).
Proof.
  apply (non_numeric_resize_is_noop (H:=latin1_db)).
  - vm_compute. reflexivity.
  - all_bytes.
  - all_bytes.
  - absent.
  - absent.
  - absent.
  - absent.
  - left. reflexivity.
Defined.

Lemma win_truncated_directive_never_ends_witness :
  TerminalWin.main (H:=latin1_db) accept_all
    {| TerminalWin.exit_code := 0; TerminalWin.lifetime := 5 |} 1000
    (ESC :: b "]RESIZE" ++ b ";80") (TerminalWin.fresh 80 24)
  = (Stuck, TerminalWin.fresh 80 24).
Proof.
  apply (win_truncated_directive_never_ends (H:=latin1_db)).
  - cbn. lia.
  - absent.
Defined.

(** C8, against the claim. Host input is at its end while the shell runs:
    [scripts/terminal_pty.py] leaves its loop and the process exits with
    status 0, not 1. *)
Lemma scripts_exits_zero_on_stdin_eof :
  (ScriptsPty.main (H:=latin1_db) 80 24 (Returns tt)
     [stdin_turn (Returns []) StillRunning] (fresh 0)).1 = Exited 0
  /\ Exited 0 ≠ Exited 1.
Proof. split; [vm_compute; reflexivity | discriminate]. Qed.

Lemma exit_zero_when_loop_left_witness :
  exists s,
    ScriptsPty.main (H:=latin1_db) 80 24 (Returns tt)
      ([] ++ [stdin_turn (Returns []) StillRunning]) (fresh 0)
    = (Exited 0, s).
Proof.
  eexists.
  eapply (exit_zero_when_loop_left (H:=latin1_db) 80 24 (Returns tt) []
            (stdin_turn (Returns []) StillRunning) (fresh 0)).
  - vm_compute. reflexivity.
  - vm_compute. reflexivity.
Defined.


End Runs.

(** ** Further properties of scripts/terminal_pty.py *)

Section ScriptsMore.
Import Py Posix Wire Startup Observe PyFacts PosixFacts ScriptsFacts MainFacts.
Context `{UnicodeDB}.

Lemma scan_raises (fuel : nat) (io : sys unit) (data : bytes) (s s' : session)
    (e : exn) :
  ScriptsPty.scan fuel io data s = (Raise e, s') ->
  e = StructError \/ (e = OSError /\ io = Fails).
Proof.
  revert data s. induction fuel as [|fuel IH]; intros data s; cbn [ScriptsPty.scan];
    destruct (find RESIZE data) as [start|]; try done.
  destruct (resize_at_cases io start data s)
    as [(e1 & c & r & _ & _ & _ & _ & ->)|[[_ ->]|[[_ ->]|[Hio ->]]]].
  - apply IH.
  - done.
  - intros [= <- <-]. by left.
  - intros [= <- <-]. by right.
Qed.

(** The scan leaves the two output logs alone. *)
Lemma scan_frame (fuel : nat) (io : sys unit) (data : bytes) (s s' : session)
    (r : res bytes) :
  ScriptsPty.scan fuel io data s = (r, s') ->
  pty_in s' = pty_in s /\ host_out s' = host_out s.
Proof.
  revert data s. induction fuel as [|fuel IH]; intros data s; cbn [ScriptsPty.scan];
    destruct (find RESIZE data) as [start|]; try by intros [= <- <-].
  destruct (resize_at_cases io start data s)
    as [(e1 & c & r1 & _ & _ & _ & _ & ->)|[[_ ->]|[[_ ->]|[Hio ->]]]];
    try by intros [= <- <-].
  intros Hs%IH. done.
Qed.

(** X1. In [scripts/terminal_pty.py] the scan of a chunk for resize
    directives always comes to an end, whatever the chunk. It ends with the
    bytes to forward, and then these are a subsequence of the chunk, or
    with an exception, and then the exception is [struct.error], or
    [OSError] from a failed [ioctl]: no [ValueError] leaves the scan. *)
Theorem scan_outcomes (io : sys unit) (chunk : bytes) (s : session) :
  match ScriptsPty.strip_resize io chunk s with
  | (Ok data', _) => data' `sublist_of` chunk
  | (Raise e, _) => e = StructError \/ (e = OSError /\ io = Fails)
  | (Fuel, _) => False
  end.
Proof.
  pose proof (scan_fuel_enough (length chunk) io chunk s (le_n _)) as Hf.
  unfold ScriptsPty.strip_resize.
  destruct (ScriptsPty.scan _ io chunk s) as [[data'|e|] s'] eqn:Hs.
  - by apply scan_sublist in Hs.
  - by apply scan_raises in Hs.
  - done.
Qed.

(** What the handling of one chunk does to the two output logs. *)
Lemma on_stdin_effect (t : tick) (chunk : bytes) (s s' : session) (r : res bool) :
  t_read_in t = Returns chunk ->
  ScriptsPty.on_stdin t s = (r, s') ->
  exists data', pty_in s' = pty_in s ++ data'
                /\ data' `sublist_of` chunk
                /\ host_out s' = host_out s.
Proof.
  intros Hin. unfold ScriptsPty.on_stdin, ScriptsPty.strip_resize. rewrite Hin.
  destruct chunk as [|d chunk].
  { intros [= <- <-]. exists []. by rewrite app_nil_r. }
  destruct (ScriptsPty.scan _ _ _ s) as [[data1|e|] s1] eqn:Hs;
    pose proof (scan_frame _ _ _ _ _ _ Hs) as [Hp Hh].
  - apply scan_sublist in Hs. destruct data1 as [|d1 data1].
    + intros [= <- <-]. exists []. rewrite app_nil_r. done.
    + destruct (t_write_pty t); intros [= <- <-].
      * exists (d1 :: data1). cbn. by rewrite Hp, Hh.
      * exists []. rewrite app_nil_r. repeat split; [done | apply sublist_nil_l | done].
  - destruct e; intros [= <- <-]; exists []; rewrite app_nil_r;
      repeat split; try done; apply sublist_nil_l.
  - intros [= <- <-]. exists []. rewrite app_nil_r.
    repeat split; try done; apply sublist_nil_l.
Qed.

(** X2. In [scripts/terminal_pty.py], what the handling of one chunk of
    host input adds to the input of the PTY is a subsequence of that
    chunk: bytes are dropped, never made up, changed or put in another
    order; and nothing is written to standard output. *)
Theorem stdin_forwarding_is_a_subsequence (t : tick) (chunk : bytes)
    (s s' : session) (r : res bool) :
  t_read_in t = Returns chunk ->
  ScriptsPty.on_stdin t s = (r, s') ->
  exists data', pty_in s' = pty_in s ++ data'
                /\ data' `sublist_of` chunk
                /\ host_out s' = host_out s.
Proof. apply on_stdin_effect. Qed.

(** A directive with a number that [struct.pack] refuses: [struct.error]
    leaves the scan, whatever the [ioctl] would do. *)
Lemma scan_oversized (fuel : nat) (io : sys unit) (pre cols rows post : bytes)
    (s : session) :
  find RESIZE pre = None -> field cols -> field rows ->
  ¬ ((decimal cols <= 65535)%Z /\ (decimal rows <= 65535)%Z) ->
  ScriptsPty.scan (S fuel) io (pre ++ directive cols rows ++ post) s
  = (Raise StructError, s).
Proof.
  intros Hpre Hc Hr Hbig. cbn [ScriptsPty.scan].
  assert (Hf : find RESIZE (pre ++ directive cols rows ++ post)
               = Some (length pre)).
  { unfold directive. rewrite <- (app_assoc RESIZE).
    by apply find_RESIZE_behind. }
  rewrite Hf. unfold ScriptsPty.resize_at.
  rewrite (directive_at_directive _ pre cols rows post eq_refl Hc Hr).
  pose proof (decimal_nonneg cols). pose proof (decimal_nonneg rows).
  unfold set_size, pack_HHHH.
  destruct (decide (decimal rows <= 65535)%Z) as [Hrows|Hrows].
  - rewrite (pack_H_range (decimal rows)) by lia.
    rewrite (pack_H_error (decimal cols)) by lia. done.
  - rewrite (pack_H_error (decimal rows)) by lia. done.
Qed.

Lemma write_host_nil (s : session) : write_host [] s = s.
Proof. destruct s. unfold write_host. cbn. by rewrite app_nil_r. Qed.

(** X3. In [scripts/terminal_pty.py], when the first introducer of a chunk
    of host input starts a well-formed directive of which a number is above
    65535, the helper ends: [struct.error] is caught nowhere, nothing of the
    chunk reaches the shell, the size stays as it was, the [finally] clause
    restores the flags of standard input and the process exits with status
    1. What stands before the introducer may hold [ESC]; PTY output that the
    same turn reads is relayed first. *)
Theorem oversized_resize_ends_the_helper (cols0 rows0 : Z) (boot : sys unit)
    (ticks : list tick) (t : tick) (s0 s1 : session) (ready1 : bool)
    (pre cols rows post : bytes) :
  ScriptsPty.main cols0 rows0 boot ticks s0 = (Running, s1) ->
  t_select t = Returns (ready1, true) ->
  (ready1 = true ->
   exists data, data ≠ [] /\ t_read_pty t = Returns data
                /\ t_write_out t = Returns tt) ->
  t_read_in t = Returns (pre ++ directive cols rows ++ post) ->
  find RESIZE pre = None -> field cols -> field rows ->
  ¬ ((decimal cols <= 65535)%Z /\ (decimal rows <= 65535)%Z) ->
  ScriptsPty.main cols0 rows0 boot (ticks ++ [t]) s0
  = (Exited 1,
     set_stdin_flags (stdin_flags s0) (write_host (relayed_output t) s1)).
Proof.
  intros (s' & Hb & Hl)%scripts_main_running Hsel Hpty Hin Hpre Hc Hr Hbig.
  rewrite <- (set_size_flags _ _ _ _ _ _ Hb).
  apply (scripts_main_left _ _ _ _ _ _ _ (Raised StructError) Hb); [|done].
  rewrite loop_app, Hl. cbn [ScriptsPty.loop].
  unfold ScriptsPty.turn, ScriptsPty.serve. rewrite Hsel. cbn [fst snd].
  assert (Hp : (if ready1 then ScriptsPty.on_pty t s1 else (true, s1))
               = (true, write_host (relayed_output t) s1)).
  { unfold relayed_output. rewrite Hsel. destruct ready1.
    - destruct (Hpty eq_refl) as (data & Hne & Hrd & Hwr).
      unfold ScriptsPty.on_pty. rewrite Hrd, Hwr. by destruct data.
    - by rewrite write_host_nil. }
  rewrite Hp. cbn [andb]. unfold ScriptsPty.on_stdin. rewrite Hin.
  destruct (pre ++ directive cols rows ++ post) as [|d data] eqn:Hd.
  { apply (f_equal length) in Hd. rewrite !length_app, directive_length in Hd.
    cbn in Hd. lia. }
  unfold ScriptsPty.strip_resize. rewrite <- Hd.
  destruct (length (pre ++ directive cols rows ++ post)) as [|fuel] eqn:Hlen.
  { rewrite Hd in Hlen. done. }
  by rewrite scan_oversized.
Qed.

(** X4. In [scripts/terminal_pty.py], a chunk in which the first introducer
    has no terminator behind it (a directive cut short) is written to the
    PTY whole, introducer included, and the session is otherwise as
    before. What stands before the introducer may hold [ESC]. *)
Theorem unterminated_directive_is_forwarded (t : tick) (s : session)
    (pre rest : bytes) :
  t_read_in t = Returns (pre ++ RESIZE ++ rest) ->
  t_write_pty t = Returns tt ->
  find RESIZE pre = None -> BEL ∉ rest ->
  ScriptsPty.on_stdin t s = (Ok true, write_pty (pre ++ RESIZE ++ rest) s).
Proof.
  intros Hin Hw Hpre Hbel. unfold ScriptsPty.on_stdin. rewrite Hin.
  destruct (pre ++ RESIZE ++ rest) as [|d data] eqn:Hd.
  { apply (f_equal length) in Hd. rewrite !length_app in Hd.
    change (length RESIZE) with 9%nat in Hd. cbn in Hd. lia. }
  rewrite <- Hd. rewrite (strip_resize_unterminated _ _ _ _ Hpre Hbel).
  rewrite Hd, Hw. done.
Qed.

(** X5. In [scripts/terminal_pty.py], when the [waitpid] call of a turn
    reports that the shell was ended by a signal, the helper calls
    [sys.exit] with the negated signal number, so that the process exits
    with status 256 minus the signal number, after the [finally] clause. *)
Theorem signal_death_exit_status (cols rows : Z) (boot : sys unit)
    (ticks : list tick) (t : tick) (s0 s1 s2 : session)
    (ready : bool * bool) (running : bool) (status : Z) :
  WIFSIGNALED status = true ->
  ScriptsPty.main cols rows boot ticks s0 = (Running, s1) ->
  t_select t = Returns ready ->
  ScriptsPty.serve t ready s1 = (Ok running, s2) ->
  t_waitpid t = Reaped status ->
  ScriptsPty.main cols rows boot (ticks ++ [t]) s0
  = (Exited (256 - WTERMSIG status), set_stdin_flags (stdin_flags s0) s2).
Proof.
  intros Hsig (s' & Hb & Hl)%scripts_main_running Hsel Hs Hw.
  rewrite <- (set_size_flags _ _ _ _ _ _ Hb).
  unfold WIFSIGNALED in Hsig. apply andb_true_iff in Hsig as [Hne Hn127].
  apply negb_true_iff in Hne, Hn127.
  assert (Hst : exit_status (- WTERMSIG status) = (256 - WTERMSIG status)%Z).
  { unfold exit_status, WTERMSIG, WIFEXITED in *.
    apply Z.eqb_neq in Hne, Hn127.
    assert (0 <= Z.land status 127 < 128)%Z.
    { change 127%Z with (Z.ones 7). rewrite Z.land_ones by lia.
      apply Z.mod_pos_bound. lia. }
    change 255%Z with (Z.ones 8). rewrite Z.land_ones by lia.
    change (2 ^ 8)%Z with 256%Z.
    symmetry. apply (Z.mod_unique_pos _ _ (-1)); lia. }
  rewrite <- Hst.
  apply (scripts_main_left _ _ _ _ _ _ _
           (Raised (SystemExit (- WTERMSIG status))) Hb); [|done].
  rewrite loop_app, Hl. cbn [ScriptsPty.loop].
  unfold ScriptsPty.turn. rewrite Hsel, Hs, Hw.
  unfold check_child, waitstatus_to_exitcode, WIFSIGNALED.
  by rewrite Hne, Hn127.
Qed.

Lemma on_stdin_host_out (t : tick) (s s' : session) (r : res bool) :
  ScriptsPty.on_stdin t s = (r, s') -> host_out s' = host_out s.
Proof.
  destruct (t_read_in t) as [chunk|] eqn:Hin.
  - intros Hs.
    by destruct (on_stdin_effect t chunk s s' r Hin Hs) as (? & _ & _ & ?).
  - unfold ScriptsPty.on_stdin. rewrite Hin. by intros [= <- <-].
Qed.

Lemma turn_host_out (t : tick) (s s' : session) (r : option loop_end) :
  ScriptsPty.turn t s = (r, s') -> host_out s' = host_out s ++ relayed_output t.
Proof.
  unfold ScriptsPty.turn, relayed_output.
  destruct (t_select t) as [[r1 r2]|];
    [|intros [= <- <-]; by rewrite app_nil_r].
  assert (Hs : forall rs s1, ScriptsPty.serve t (r1, r2) s = (rs, s1) ->
            host_out s1
            = host_out s ++ match (if r1 then t_read_pty t else Fails), t_write_out t with
                            | Returns data, Returns _ => data
                            | _, _ => []
                            end).
  { intros rs s1. unfold ScriptsPty.serve, ScriptsPty.on_pty. cbn [fst snd].
    destruct r1.
    - destruct (t_read_pty t) as [[|d data]|].
      + cbn [andb]. intros [= <- <-]. destruct (t_write_out t); by rewrite app_nil_r.
      + destruct (t_write_out t).
        * destruct r2; cbn [andb].
          -- intros Hi%on_stdin_host_out. by rewrite Hi.
          -- by intros [= <- <-].
        * cbn [andb]. intros [= <- <-]. by rewrite app_nil_r.
      + cbn [andb]. intros [= <- <-]. by rewrite app_nil_r.
    - cbn [andb]. destruct r2.
      + intros Hi%on_stdin_host_out. by rewrite Hi, app_nil_r.
      + intros [= <- <-]. by rewrite app_nil_r. }
  destruct (ScriptsPty.serve t (r1, r2) s) as [[running|e|] s1] eqn:Hserve;
    specialize (Hs _ _ eq_refl).
  - destruct (check_child (t_waitpid t)); intros [= <- <-]; by destruct r1.
  - intros [= <- <-]. by destruct r1.
  - intros [= <- <-]. by destruct r1.
Qed.

(** X6. In [scripts/terminal_pty.py], over any run of the relay loop, what
    has been written to standard output is what the turns that were run
    read from the PTY, chunk after chunk in the order of the turns, each
    chunk whole and unchanged: nothing is dropped, repeated or filtered on
    the way out. The turns that were run are all the turns while the loop
    goes on, and else the turns up to the one that left the loop: before
    that turn the loop was still going, and the answers behind it play no
    part. *)
Theorem host_output_in_order (ticks : list tick) (s : session) :
  host_out (ScriptsPty.loop ticks s).2
  = host_out s ++ flat_map relayed_output (take (turns_run ticks s) ticks)
  /\ (turns_run ticks s <= length ticks)%nat
  /\ ((ScriptsPty.loop ticks s).1 = Pending -> turns_run ticks s = length ticks)
  /\ (forall k, (k < turns_run ticks s)%nat ->
                (ScriptsPty.loop (take k ticks) s).1 = Pending)
  /\ ScriptsPty.loop (take (turns_run ticks s) ticks) s = ScriptsPty.loop ticks s.
Proof.
  revert s. induction ticks as [|t ticks IH]; intros s.
  - cbn. rewrite app_nil_r. repeat split; try done. intros k Hk. lia.
  - cbn [ScriptsPty.loop turns_run].
    destruct (ScriptsPty.turn t s) as [[e1|] s1] eqn:Ht.
    + pose proof (turn_host_out _ _ _ _ Ht) as Ho.
      cbn [take flat_map fst snd length]. rewrite take_0. cbn [flat_map].
      rewrite app_nil_r. repeat split; try done.
      * lia.
      * intros ->. by apply turn_not_pending in Ht.
      * intros k Hk. by replace k with 0%nat by lia.
      * cbn [ScriptsPty.loop]. by rewrite Ht.
    + pose proof (turn_host_out _ _ _ _ Ht) as Ho.
      destruct (IH s1) as (Hout & Hle & Hpend & Hbefore & Hsame).
      cbn [take flat_map length]. repeat split.
      * by rewrite Hout, Ho, <- app_assoc.
      * lia.
      * intros Hp. by rewrite Hpend.
      * intros [|k] Hk; [done|]. cbn [take ScriptsPty.loop]. rewrite Ht.
        apply Hbefore. lia.
      * cbn [ScriptsPty.loop]. by rewrite Ht.
Qed.

(** X7. In [scripts/terminal_pty.py], a turn leaves the relay loop quietly
    (by [break] or by [running = False]) only for one of these causes:
    [select] failed; [waitpid] found no child; or the shell still runs and
    a stream that [select] reported gave an empty read or an I/O error
    (the read or the write for the PTY side; the read, the write or the
    [ioctl] for the host side). A directive that does not parse is no such
    cause. *)
Theorem quiet_end_has_a_cause (t : tick) (s s' : session) :
  ScriptsPty.turn t s = (Some Broke, s') ->
  t_select t = Fails
  \/ t_waitpid t = NoChild
  \/ (t_waitpid t = StillRunning
      /\ exists r1 r2, t_select t = Returns (r1, r2)
          /\ ((r1 = true
               /\ (t_read_pty t = Returns [] \/ t_read_pty t = Fails
                   \/ t_write_out t = Fails))
              \/ (r2 = true
                  /\ (t_read_in t = Returns [] \/ t_read_in t = Fails
                      \/ t_write_pty t = Fails \/ t_ioctl t = Fails)))).
Proof.
  unfold ScriptsPty.turn. destruct (t_select t) as [[r1 r2]|]; [|by left].
  destruct (ScriptsPty.serve t (r1, r2) s) as [[running|e|] s1] eqn:Hs;
    [|done|done].
  destruct (t_waitpid t) as [|status|] eqn:Hw; cbn [check_child].
  - destruct running; [done|]. intros _. right; right. split; [done|].
    exists r1, r2. split; [done|].
    revert Hs. unfold ScriptsPty.serve, ScriptsPty.on_pty. cbn [fst snd].
    assert (Hi : forall s0 s2, ScriptsPty.on_stdin t s0 = (Ok false, s2) ->
              t_read_in t = Returns [] \/ t_read_in t = Fails
              \/ t_write_pty t = Fails \/ t_ioctl t = Fails).
    { intros s0 s2. unfold ScriptsPty.on_stdin, ScriptsPty.strip_resize.
      destruct (t_read_in t) as [[|d data]|]; [by left| |by right; left].
      destruct (ScriptsPty.scan _ _ _ s0) as [[[|d1 data1]|e|] s3] eqn:Hscan;
        try done.
      - destruct (t_write_pty t); [done | by right; right; left].
      - apply scan_raises in Hscan as [->|[-> Hio]]; [done|].
        by right; right; right. }
    destruct r1.
    + destruct (t_read_pty t) as [[|d data]|]; [left; auto | | left; auto].
      destruct (t_write_out t); [|left; auto]. cbn [andb].
      destruct r2; [|done]. intros Hin%Hi. right. auto.
    + cbn [andb]. destruct r2; [|done]. intros Hin%Hi. right. auto.
  - by destruct (waitstatus_to_exitcode status).
  - intros _. by right; left.
Qed.

(** X8. The helper started with four arguments or more, of which the
    second and the third are digits for numbers up to 65535, comes to its
    relay loop with the PTY at exactly that size, installed once. The shell
    and its arguments have no part in what the parent process does. *)
Theorem starts_at_the_size_of_argv (prog shell : str) (args : list str)
    (cs rs : bytes) (flags : Z) :
  short_field cs -> short_field rs ->
  exists s,
    program (prog :: map Byte.to_N cs :: map Byte.to_N rs :: shell :: args)
      (Returns tt) [] (fresh flags) = (Running, s)
    /\ winsize s = (decimal cs, decimal rs)
    /\ applied s = [(decimal cs, decimal rs)]
    /\ stdin_flags s = Z.lor flags O_NONBLOCK.
Proof.
  intros [(Hc0 & Hc & Hcl) Hcs] [(Hr0 & Hr & Hrl) Hrs].
  unfold program, parse_argv.
  rewrite (int_digits _ Hc Hc0 Hcl). cbn [mbind res_bind].
  rewrite (int_digits _ Hr Hr0 Hrl). cbn [mbind res_bind].
  unfold ScriptsPty.main.
  pose proof (decimal_nonneg cs). pose proof (decimal_nonneg rs).
  rewrite set_size_ok by lia. cbn. eauto.
Qed.

(** X9. Whenever the arguments are refused (fewer than four entries in
    [sys.argv], or a second or third entry that [int] does not take), the
    helper exits with status 1 and has touched neither the PTY nor the flags
    of standard input. *)
Theorem refused_arguments_exit_one (argv : list str) (boot : sys unit)
    (ticks : list tick) (s0 : session) :
  ((length argv < 4)%nat
   \/ exists a0 a1 a2 rest, argv = a0 :: a1 :: a2 :: rest
        /\ (int a1 = Raise ValueError \/ int a2 = Raise ValueError)) ->
  program argv boot ticks s0 = (Exited 1, s0).
Proof.
  unfold program, parse_argv.
  intros [Hlen|(a0 & a1 & a2 & rest & -> & Hint)].
  - destruct argv as [|a0 [|a1 [|a2 [|shell args]]]]; try done.
    cbn in Hlen. lia.
  - destruct rest as [|shell args]; [done|].
    destruct (int_cases a1) as [[z1 H1]|H1]; rewrite H1; cbn [mbind res_bind];
      [|done].
    destruct Hint as [Hi|Hi]; [congruence|]. by rewrite Hi.
Qed.

Lemma skip_spaces_blanks (pad : bytes) (text : str) :
  blanks pad -> skip_spaces (map Byte.to_N pad ++ text) = skip_spaces text.
Proof.
  induction 1 as [|c pad Hc _ IH]; [done|]. cbn [map app skip_spaces].
  by rewrite Hc.
Qed.

Lemma blanks_no (c : N) (pad : bytes) :
  is_space c = false -> blanks pad -> c ∉ map Byte.to_N pad.
Proof.
  intros Hc Hp Hin. apply list_elem_of_fmap in Hin as (d & -> & Hin).
  unfold blanks in Hp. rewrite Forall_forall in Hp.
  specialize (Hp _ Hin). congruence.
Qed.

Lemma digit_run_then_blanks (ds pad : bytes) (acc : N) (n : nat) :
  digits ds -> blanks pad ->
  digit_run false acc n (map Byte.to_N ds ++ map Byte.to_N pad)
  = Some (decimal_from acc ds, (n + length ds)%nat, map Byte.to_N pad).
Proof.
  intros Hd Hp. revert acc n. induction Hd as [|d ds Hd _ IH]; intros acc n.
  - cbn [map app length decimal_from fold_left].
    replace (n + 0)%nat with n by lia.
    destruct Hp as [|c pad Hc Hp]; [done|]. cbn [map digit_run].
    assert (is_digit (Byte.to_N c) = false) as ->.
    { unfold is_space, is_digit in *.
      destruct (N.leb_spec 9 (Byte.to_N c)), (N.leb_spec (Byte.to_N c) 13),
        (N.eqb_spec (Byte.to_N c) 32), (N.leb_spec 48 (Byte.to_N c)),
        (N.leb_spec (Byte.to_N c) 57); cbn in *; first [done | lia]. }
    assert ((Byte.to_N c =? 95)%N = false) as ->.
    { unfold is_space in Hc. apply N.eqb_neq. intros Heq. rewrite Heq in Hc. done. }
    done.
  - cbn [map app digit_run]. rewrite Hd, IH. cbn [length decimal_from fold_left].
    do 3 f_equal. lia.
Qed.

Lemma int_padded (p1 ds p2 : bytes) :
  blanks p1 -> blanks p2 -> field ds ->
  int (map Byte.to_N (p1 ++ ds ++ p2)) = Ok (decimal ds).
Proof.
  intros Hp1 Hp2 (Hd0 & Hd & Hlen). unfold int.
  assert (Hbl : forall p, blanks p -> ascii p).
  { intros p Hp. eapply Forall_impl; [exact Hp|]. intros c Hc. cbn beta.
    unfold is_space in Hc.
    destruct (N.leb_spec 9 (Byte.to_N c)), (N.leb_spec (Byte.to_N c) 13),
      (N.eqb_spec (Byte.to_N c) 32); cbn in Hc; first [lia | done]. }
  rewrite is_ascii_map.
  2:{ apply Forall_app. split; [by apply Hbl|]. apply Forall_app.
      split; [by apply digits_ascii | by apply Hbl]. }
  rewrite !map_app. unfold long_from_string.
  rewrite skip_spaces_blanks by done.
  destruct ds as [|d ds]; [done|].
  pose proof (Forall_inv Hd) as Hd1. cbn beta in Hd1.
  cbn [map app]. rewrite (skip_spaces_digit _ _ Hd1).
  pose proof (proj1 (is_digit_range _) Hd1) as Hr.
  destruct (N.eqb_spec (Byte.to_N d) 43); [lia|].
  destruct (N.eqb_spec (Byte.to_N d) 45); [lia|].
  destruct (N.eqb_spec (Byte.to_N d) 95); [lia|].
  change (Byte.to_N d :: map Byte.to_N ds ++ map Byte.to_N p2)
    with (map Byte.to_N (d :: ds) ++ map Byte.to_N p2).
  rewrite (digit_run_then_blanks _ _ _ _ Hd Hp2).
  cbn [Nat.add length Nat.eqb].
  destruct (Nat.ltb_spec max_str_digits (S (length ds))); [cbn in Hlen; lia|].
  pose proof (skip_spaces_blanks p2 [] Hp2) as Hsk. rewrite app_nil_r in Hsk.
  rewrite Hsk. done.
Qed.

(** X21. In the POSIX helpers the payload of a directive is laxer than
    two runs of digits: each field may have blanks (tab, line feed,
    vertical tab, form feed, carriage return, space) before and after its
    digits, and the payload still parses to the two numbers. *)
Theorem padded_fields_parse (p1 cols p2 p3 rows p4 : bytes) :
  blanks p1 -> blanks p2 -> blanks p3 -> blanks p4 ->
  field cols -> field rows ->
  parse_payload ((p1 ++ cols ++ p2) ++ [x3b] ++ (p3 ++ rows ++ p4))
  = Ok (decimal cols, decimal rows).
Proof.
  intros H1 H2 H3 H4 Hc Hr. unfold parse_payload.
  assert (Hbl : forall p, blanks p -> ascii p /\ 59%N ∉ map Byte.to_N p).
  { intros p Hp. split; [|by apply blanks_no].
    eapply Forall_impl; [exact Hp|]. intros c Hc'. cbn beta.
    unfold is_space in Hc'.
    destruct (N.leb_spec 9 (Byte.to_N c)), (N.leb_spec (Byte.to_N c) 13),
      (N.eqb_spec (Byte.to_N c) 32); cbn in Hc'; first [lia | done]. }
  assert (Hfd : forall p ds q, blanks p -> blanks q -> field ds ->
            ascii (p ++ ds ++ q) /\ 59%N ∉ map Byte.to_N (p ++ ds ++ q)).
  { intros p ds q Hp Hq (_ & Hd & _). split.
    - apply Forall_app. split; [by apply Hbl|]. apply Forall_app.
      split; [by apply digits_ascii | by apply Hbl].
    - rewrite !map_app, !not_elem_of_app. repeat split.
      + by apply Hbl.
      + by apply digits_no_N.
      + by apply Hbl. }
  destruct (Hfd p1 cols p2 H1 H2 Hc) as [Ha1 Hn1].
  destruct (Hfd p3 rows p4 H3 H4 Hr) as [Ha2 Hn2].
  rewrite decode_ascii.
  2:{ apply Forall_app. split; [done|]. apply Forall_cons. split; [cbn; lia | done]. }
  cbn [mbind res_bind]. rewrite map_app. cbn [map app].
  change (Byte.to_N x3b) with 59%N. rewrite split_two by done.
  cbn [unpack2 mbind res_bind].
  rewrite int_padded by done. cbn [mbind res_bind].
  rewrite int_padded by done. done.
Qed.

End ScriptsMore.

(** ** Further properties of terminal_pty.py *)

Section TerminalMore.
Import Py Posix Wire PyFacts PosixFacts ScriptsFacts MainFacts.
Context `{UnicodeDB}.

Lemma set_size_fails (cols rows : Z) (s : session) :
  (0 <= cols <= 65535)%Z -> (0 <= rows <= 65535)%Z ->
  set_size Fails cols rows s = (Raise OSError, s).
Proof.
  intros Hc Hr. unfold set_size, pack_HHHH.
  by rewrite (pack_H_range _ Hr), (pack_H_range _ Hc).
Qed.

Lemma resize_head_directive (cols rows rest : bytes) (s : session) :
  short_field cols -> short_field rows ->
  TerminalPty.strip_resize (Returns tt) (directive cols rows ++ rest) s
  = (Ok rest, with_winsize (decimal cols, decimal rows) s).
Proof.
  intros [Hc Hcs] [Hr Hrs]. unfold TerminalPty.strip_resize.
  assert (Hsw : startswith RESIZE (directive cols rows ++ rest) = true).
  { unfold directive. rewrite <- (app_assoc RESIZE). apply startswith_app. }
  rewrite Hsw. unfold TerminalPty.resize_head.
  pose proof (directive_at_directive 0 [] cols rows rest eq_refl Hc Hr) as Hd.
  cbn [app] in Hd. rewrite Hd.
  pose proof (decimal_nonneg cols). pose proof (decimal_nonneg rows).
  rewrite set_size_ok by lia.
  replace (0 + 9 + length cols + 1 + length rows + 1)%nat
    with (length (directive cols rows)) by (rewrite directive_length; lia).
  by rewrite drop_app_length.
Qed.

(** X10. In [terminal_pty.py], a chunk of host input that starts with a
    well-formed directive whose numbers fit the device sets the size to
    those numbers, and everything behind the directive is written to the
    PTY as it is, further directives included. *)
Theorem leading_directive_is_stripped (t : tick) (s : session)
    (cols rows rest : bytes) :
  t_read_in t = Returns (directive cols rows ++ rest) ->
  t_ioctl t = Returns tt -> t_write_pty t = Returns tt ->
  short_field cols -> short_field rows ->
  exists s',
    TerminalPty.on_stdin t s = (Ok tt, s')
    /\ pty_in s' = pty_in s ++ rest
    /\ winsize s' = (decimal cols, decimal rows)
    /\ applied s' = applied s ++ [(decimal cols, decimal rows)].
Proof.
  intros Hin Hio Hw Hc Hr. unfold TerminalPty.on_stdin. rewrite Hin, Hio.
  destruct (directive cols rows ++ rest) as [|d data] eqn:Hd.
  { apply (f_equal length) in Hd. rewrite length_app, directive_length in Hd.
    cbn in Hd. lia. }
  rewrite <- Hd, resize_head_directive by done.
  destruct rest as [|r0 rest].
  - eexists. split; [reflexivity|]. cbn. by rewrite app_nil_r.
  - rewrite Hw. eexists. split; [reflexivity|]. done.
Qed.

Lemma terminal_on_stdin_raises (t : tick) (s s' : session) (e : exn) :
  TerminalPty.on_stdin t s = (Raise e, s') -> e = StructError.
Proof.
  unfold TerminalPty.on_stdin, TerminalPty.strip_resize, TerminalPty.resize_head.
  destruct (t_read_in t) as [[|d data]|]; try done.
  destruct (startswith RESIZE (d :: data)).
  - destruct (directive_at_cases 0 (d :: data)) as [(e1 & c & r & -> & _)| ->].
    + destruct (set_size_cases (t_ioctl t) c r s) as [[-> _]|[->| ->]].
      * destruct (drop (e1 + 1) (d :: data)); [done|]. by destruct (t_write_pty t).
      * by intros [= <- <-].
      * done.
    + by destruct (t_write_pty t).
  - by destruct (t_write_pty t).
Qed.

(** X11. In [terminal_pty.py], a turn ends the relay loop only when
    [select] fails, when [waitpid] reports the end of the shell or finds
    no child, or when [struct.error] escapes. The end of a stream and
    I/O errors on the PTY or on host input never end it: while [waitpid]
    answers that the shell runs and [select] succeeds, the loop goes on. *)
Theorem terminal_pty_ways_out (t : tick) (s s' : session) (e : loop_end) :
  TerminalPty.turn t s = (Some e, s') ->
  (e = Broke /\ (t_select t = Fails \/ t_waitpid t = NoChild))
  \/ (exists status, t_waitpid t = Reaped status)
  \/ e = Raised StructError.
Proof.
  unfold TerminalPty.turn. destruct (t_select t) as [[r1 r2]|] eqn:Hsel.
  2:{ intros [= <- <-]. left. auto. }
  destruct (TerminalPty.serve t (r1, r2) s) as [[[]|e1|] s1] eqn:Hs.
  - destruct (t_waitpid t) as [|status|]; cbn [check_child]; [done|eauto|].
    intros [= <- <-]. left. auto.
  - intros [= <- <-]. right; right. f_equal.
    revert Hs. unfold TerminalPty.serve. cbn [fst snd].
    destruct r1.
    + destruct (TerminalPty.on_pty t s) as [go_on s2].
      destruct (go_on && r2); [apply terminal_on_stdin_raises | done].
    + cbn [andb]. destruct r2; [apply terminal_on_stdin_raises | done].
  - pose proof (terminal_turn_no_fuel t s s1) as Hn.
    unfold TerminalPty.turn in Hn. rewrite Hsel, Hs in Hn. done.
Qed.

(** X12. The two POSIX helpers do the same with a chunk of host input
    that holds no [ESC] at all, and with a chunk that is one well-formed
    directive whose numbers fit the device followed by bytes without
    [ESC]: the same bytes to forward, the same session, the same
    exception when the [ioctl] fails. *)
Theorem posix_variants_agree (io : sys unit) (chunk : bytes) (s : session) :
  (ESC ∉ chunk
   \/ exists cols rows seg, chunk = directive cols rows ++ seg
        /\ short_field cols /\ short_field rows /\ ESC ∉ seg) ->
  ScriptsPty.strip_resize io chunk s = TerminalPty.strip_resize io chunk s.
Proof.
  intros [Hesc|(cols & rows & seg & -> & Hc & Hr & Hseg)].
  - unfold ScriptsPty.strip_resize, TerminalPty.strip_resize.
    rewrite scan_plain by (rewrite RESIZE_eq; by apply find_absent).
    destruct chunk as [|d chunk]; [done|].
    apply not_elem_of_cons in Hesc as [Hd _].
    rewrite RESIZE_eq, startswith_head_neq by done. done.
  - pose proof (decimal_nonneg cols). pose proof (decimal_nonneg rows).
    destruct Hc as [Hc Hcs], Hr as [Hr Hrs].
    unfold ScriptsPty.strip_resize, TerminalPty.strip_resize.
    assert (Hsw : startswith RESIZE (directive cols rows ++ seg) = true).
    { unfold directive. rewrite <- (app_assoc RESIZE). apply startswith_app. }
    rewrite Hsw. unfold TerminalPty.resize_head.
    pose proof (directive_at_directive 0 [] cols rows seg eq_refl Hc Hr) as Hd.
    cbn [app] in Hd. rewrite Hd.
    destruct (length (directive cols rows ++ seg)) as [|fuel] eqn:Hlen.
    { rewrite length_app, directive_length in Hlen. lia. }
    cbn [ScriptsPty.scan].
    assert (Hf : find RESIZE (directive cols rows ++ seg) = Some 0%nat).
    { unfold directive. rewrite <- (app_assoc RESIZE). apply find_here. }
    rewrite Hf. unfold ScriptsPty.resize_at. rewrite Hd.
    replace (0 + 9 + length cols + 1 + length rows + 1)%nat
      with (length (directive cols rows)) by (rewrite directive_length; lia).
    rewrite drop_app_length. cbn [take app].
    destruct io as [[]|].
    + rewrite set_size_ok by lia.
      rewrite scan_plain by (rewrite RESIZE_eq; by apply find_absent). done.
    + rewrite set_size_fails by lia. done.
Qed.

End TerminalMore.

(** ** Further properties of terminal_win.py *)

Section WinMore.
Import Py Wire Echo Startup Observe PyFacts PosixFacts WinFacts TerminalWin.
Context `{UnicodeDB}.
Variable pty_set_size : Z -> Z -> res unit.
Variable sh : shell.

Lemma lstrip_head (ch c : N) (text : str) :
  c ≠ ch -> lstrip ch (c :: text) = c :: text.
Proof. intros Hc. cbn [lstrip]. by destruct (N.eqb_spec c ch). Qed.

Lemma strip_fields (cols rows : bytes) :
  field cols -> field rows ->
  strip 59 (59%N :: map Byte.to_N cols ++ 59%N :: map Byte.to_N rows)
  = map Byte.to_N cols ++ 59%N :: map Byte.to_N rows.
Proof.
  intros (Hc0 & Hc & _) (Hr0 & Hr & _). unfold strip.
  cbn [lstrip]. rewrite N.eqb_refl.
  destruct cols as [|c0 cols]; [done|]. cbn [map app].
  rewrite lstrip_head.
  2:{ intros Heq. apply (digits_no_N 59%N (c0 :: cols)); [done | done |].
      rewrite <- Heq. cbn [map]. apply list_elem_of_here. }
  change (Byte.to_N c0 :: map Byte.to_N cols ++ 59%N :: map Byte.to_N rows)
    with (map Byte.to_N (c0 :: cols) ++ 59%N :: map Byte.to_N rows).
  rewrite rev_app_distr. cbn [rev]. rewrite <- !app_assoc.
  destruct (rev (map Byte.to_N rows)) as [|r0 rrows] eqn:Hrev.
  { apply (f_equal length) in Hrev. rewrite length_rev, length_map in Hrev.
    destruct rows; [done | discriminate]. }
  rewrite <- app_comm_cons, lstrip_head.
  2:{ intros Heq. apply (digits_no_N 59%N rows); [done | done |].
      rewrite <- Heq. apply list_elem_of_In, in_rev. rewrite Hrev. by left. }
  rewrite app_comm_cons, <- Hrev.
  rewrite rev_app_distr, rev_involutive. cbn [app rev].
  rewrite rev_involutive. by rewrite <- app_assoc.
Qed.

Lemma apply_resize_fields (cols rows : bytes) (s : session) :
  field cols -> field rows ->
  pty_set_size (decimal cols) (decimal rows) = Ok tt ->
  apply_resize pty_set_size (x3b :: cols ++ [x3b] ++ rows) s
  = (Ok tt, with_size (decimal cols, decimal rows) s).
Proof.
  intros Hc Hr Hset. unfold apply_resize. rewrite decode_ascii.
  2:{ apply Forall_cons. split; [cbn; lia|]. apply Forall_app.
      split; [apply digits_ascii, Hc|].
      apply Forall_cons. split; [cbn; lia | apply digits_ascii, Hr]. }
  cbn [map]. rewrite map_app. cbn [map app].
  change (Byte.to_N x3b) with 59%N. rewrite strip_fields by done.
  rewrite split_two by (apply digits_no_N; [done | apply Hc || apply Hr]).
  destruct Hc as (Hc0 & Hc & Hcl), Hr as (Hr0 & Hr & Hrl).
  rewrite (int_digits _ Hc Hc0 Hcl). cbn [mbind res_bind].
  rewrite (int_digits _ Hr Hr0 Hrl). cbn [mbind res_bind].
  by rewrite Hset.
Qed.

(** A well-formed directive at the head of a turn. *)
Lemma relay_directive (fuel n : nat) (cols rows rest : bytes) (s : session) :
  alive sh n = true ->
  field cols -> field rows ->
  (length cols + length rows + 2 < fuel)%nat ->
  pty_set_size (decimal cols) (decimal rows) = Ok tt ->
  relay pty_set_size sh (S fuel) n (directive cols rows ++ rest) s
  = relay pty_set_size sh fuel (S n) rest
      (with_size (decimal cols, decimal rows) s).
Proof.
  intros Ha Hc Hr Hfuel Hset.
  replace (directive cols rows ++ rest)
    with (ESC :: b "]RESIZE" ++ (x3b :: cols ++ [x3b] ++ rows) ++ BEL :: rest).
  2:{ unfold directive. rewrite PosixFacts.RESIZE_eq.
      change (b "]RESIZE;") with (b "]RESIZE" ++ [x3b]).
      rewrite <- !app_comm_cons. rewrite <- !app_assoc. cbn [app].
      by rewrite <- (app_assoc rows). }
  apply win_directive_consumed; try done.
  - apply not_elem_of_cons. split; [done|]. rewrite !not_elem_of_app.
    repeat split.
    + apply digits_no; [done | apply Hc].
    + intros Hin. apply list_elem_of_singleton in Hin. discriminate.
    + apply digits_no; [done | apply Hr].
  - cbn [length]. rewrite !length_app. cbn [length]. lia.
  - by apply apply_resize_fields.
Qed.

(** X13. In [terminal_win.py], a well-formed directive in the stream of
    host input, at a point where the loop runs and with the bytes up to
    its terminator within the steps given, is read to its end, the size of
    the PTY becomes the pair it carries when [pty.set_size] accepts it,
    nothing of it is written to the PTY, and the loop goes on with the
    input behind the terminator. *)
Theorem win_directive_applied (fuel n : nat) (cols rows rest : bytes)
    (s : session) :
  alive sh n = true ->
  field cols -> field rows ->
  (length cols + length rows + 2 < fuel)%nat ->
  pty_set_size (decimal cols) (decimal rows) = Ok tt ->
  relay pty_set_size sh (S fuel) n (directive cols rows ++ rest) s
  = relay pty_set_size sh fuel (S n) rest
      (with_size (decimal cols, decimal rows) s).
Proof. apply relay_directive. Qed.

Lemma write_pty_nil (s : session) : write_pty [] s = s.
Proof. destruct s. unfold write_pty. cbn. by rewrite app_nil_r. Qed.

Lemma write_pty_app (t1 t2 : str) (s : session) :
  write_pty t2 (write_pty t1 s) = write_pty (t1 ++ t2) s.
Proof. unfold write_pty. cbn. by rewrite app_assoc. Qed.

(** Plain ASCII input is written to the PTY byte after byte. *)
Lemma relay_plain (input : bytes) :
  forall (fuel n : nat) (s : session),
    ascii input -> ESC ∉ input ->
    (length input < fuel)%nat -> (n + length input <= lifetime sh)%nat ->
    relay pty_set_size sh fuel n input s
    = (Ok tt, write_pty (map Byte.to_N input) s).
Proof.
  induction input as [|d input IH]; intros fuel n s Ha He Hf Hl.
  - destruct fuel as [|fuel]; [cbn in Hf; lia|]. cbn [relay map].
    rewrite write_pty_nil. by destruct (negb (alive sh n)).
  - destruct fuel as [|fuel]; [cbn in Hf; lia|].
    apply Forall_cons in Ha as [Hd Ha]. apply not_elem_of_cons in He as [Hne He].
    cbn [relay]. cbn [length] in Hf, Hl.
    assert (alive sh n = true) as -> by (unfold alive; apply Nat.ltb_lt; lia).
    cbn [negb].
    assert (Byte.eqb d ESC = false) as -> by (by apply byte_eqb_neq).
    rewrite IH; [|done|done|lia|lia].
    rewrite (decode_replace_ascii [d]) by (by apply Forall_singleton).
    by rewrite write_pty_app.
Qed.

(** X14. In [terminal_win.py], host input made of ASCII bytes other than
    [ESC], given while the shell lives, is written to the PTY byte for
    byte, unchanged and in order; the size is untouched, and at the end of
    the input the loop is left without an exception. *)
Theorem win_ascii_is_forwarded (input : bytes) (fuel : nat) (s : session) :
  ascii input -> ESC ∉ input ->
  (length input < fuel)%nat -> (length input <= lifetime sh)%nat ->
  main pty_set_size sh fuel input s
  = (Exited 0, write_pty (map Byte.to_N input) s).
Proof.
  intros Ha He Hf Hl. unfold main. by rewrite relay_plain.
Qed.

(** Plain ASCII bytes at the head of the input are written one per turn,
    and the loop goes on behind them. *)
Lemma relay_plain_then (lit : bytes) :
  forall (fuel n : nat) (rest : bytes) (s : session),
    ascii lit -> ESC ∉ lit -> (n + length lit <= lifetime sh)%nat ->
    relay pty_set_size sh (length lit + fuel) n (lit ++ rest) s
    = relay pty_set_size sh fuel (n + length lit) rest
        (write_pty (map Byte.to_N lit) s).
Proof.
  induction lit as [|d lit IH]; intros fuel n rest s Ha He Hl.
  - cbn [length map app]. by rewrite write_pty_nil, Nat.add_0_r.
  - apply Forall_cons in Ha as [Hd Ha]. apply not_elem_of_cons in He as [Hne He].
    cbn [length] in *. cbn [Nat.add relay app].
    assert (alive sh n = true) as -> by (unfold alive; apply Nat.ltb_lt; lia).
    cbn [negb].
    assert (Byte.eqb d ESC = false) as -> by (by apply byte_eqb_neq).
    rewrite IH; [|done|done|lia].
    rewrite (decode_replace_ascii [d]) by (by apply Forall_singleton).
    rewrite write_pty_app. f_equal. lia.
Qed.

(** X15. In [terminal_win.py], an [ESC] byte that a turn of the main loop
    reads right before a directive hides the directive: the turn reads the
    [ESC] and the seven bytes behind it, finds them to be no introducer and
    writes them to the PTY, and the turns that follow write the rest of the
    directive byte by byte. The size is untouched, the shell receives the
    [ESC] and the whole directive, and the loop goes on with what stands
    behind the directive, whatever it is. *)
Theorem win_escape_hides_directive (fuel n : nat) (cols rows rest : bytes)
    (s : session) :
  digits cols -> digits rows ->
  (n + 5 + length cols + length rows <= lifetime sh)%nat ->
  relay pty_set_size sh (5 + length cols + length rows + fuel) n
    (ESC :: directive cols rows ++ rest) s
  = relay pty_set_size sh fuel (n + 5 + length cols + length rows) rest
      (write_pty (map Byte.to_N (ESC :: directive cols rows)) s).
Proof.
  intros Hc Hr Hl.
  set (tail := x45 :: x3b :: cols ++ [x3b] ++ rows ++ [BEL]).
  assert (Hd : directive cols rows
               = [x1b; x5d; x52; x45; x53; x49; x5a] ++ tail).
  { unfold directive, tail. rewrite PosixFacts.RESIZE_eq. reflexivity. }
  assert (Hlen : length tail = (4 + length cols + length rows)%nat).
  { unfold tail. cbn [length]. repeat (rewrite length_app; cbn [length]). lia. }
  rewrite Hd, <- app_assoc.
  replace (5 + length cols + length rows + fuel)%nat
    with (S (length tail + fuel)) by lia.
  cbn [relay].
  assert (alive sh n = true) as -> by (unfold alive; apply Nat.ltb_lt; lia).
  cbn [negb]. rewrite byte_eqb_refl.
  change (take 7 ([x1b; x5d; x52; x45; x53; x49; x5a] ++ ?l))
    with [x1b; x5d; x52; x45; x53; x49; x5a].
  change (b "]RESIZE") with [x5d; x52; x45; x53; x49; x5a; x45].
  cbn [app take drop]. unfold bytes_eqb. cbn [length Nat.eqb andb startswith].
  change (Byte.eqb x1b x5d) with false. cbn [andb]. rewrite drop_0.
  rewrite relay_plain_then.
  - rewrite (decode_replace_ascii [ESC; x1b; x5d; x52; x45; x53; x49; x5a]).
    2:{ repeat (apply Forall_cons; split; [cbn; lia|]). apply Forall_nil_2. }
    rewrite write_pty_app. rewrite <- map_app. cbn [app]. f_equal. lia.
  - unfold tail.
    repeat first [ apply Forall_cons; split; [cbn; lia|]
                 | apply Forall_app; split; [by apply digits_ascii|] ].
    apply Forall_nil_2.
  - unfold tail.
    repeat first [ apply not_elem_of_cons; split; [done|]
                 | apply not_elem_of_app; split; [by apply digits_no|] ].
    apply not_elem_of_nil.
  - lia.
Qed.

Lemma read_directive_cases (fuel : nat) (resize_data input : bytes) :
  (exists payload rest, read_directive fuel resize_data input = Ok (payload, rest))
  \/ read_directive fuel resize_data input = Fuel.
Proof.
  revert resize_data input. induction fuel as [|fuel IH];
    intros resize_data input; [by right|].
  cbn [read_directive]. destruct (bytes_eqb _ _); [left; eauto | apply IH].
Qed.

Lemma win_follows_refl (s : session) : win_follows s s.
Proof. exists []. by rewrite app_nil_r. Qed.

Lemma win_follows_trans (s1 s2 s3 : session) :
  win_follows s1 s2 -> win_follows s2 s3 -> win_follows s1 s3.
Proof.
  intros (l1 & Ha1 & Hw1) (l2 & Ha2 & Hw2). exists (l1 ++ l2).
  rewrite Ha2, Ha1, Hw2, Hw1, last_app_default, app_assoc. done.
Qed.

Lemma apply_resize_follows (resize_data : bytes) (s s' : session) (r : res unit) :
  apply_resize pty_set_size resize_data s = (r, s') -> win_follows s s'.
Proof.
  unfold apply_resize. destruct (decode resize_data) as [text|e|];
    try (intros [= <- <-]; apply win_follows_refl).
  destruct (split 59 (strip 59 text)) as [|p0 [|p1 [|]]];
    try (intros [= <- <-]; apply win_follows_refl).
  destruct (int p0 ≫= _) as [[c r']|e|];
    try (destruct e); try (intros [= <- <-]; apply win_follows_refl).
  destruct (pty_set_size c r') as [[]|e|];
    try (destruct e); try (intros [= <- <-]; apply win_follows_refl).
  intros [= <- <-]. by exists [(c, r')].
Qed.

(** What the loop can end with, and what it does to the size. *)
Lemma relay_cases (fuel n : nat) (input : bytes) (s s' : session) (r : res unit) :
  (forall c r' code, pty_set_size c r' ≠ Raise (SystemExit code)) ->
  relay pty_set_size sh fuel n input s = (r, s') ->
  (r = Ok tt \/ r = Fuel) /\ win_follows s s'.
Proof.
  intros Hset. revert n input s. induction fuel as [|fuel IH]; intros n input s.
  { intros [= <- <-]. split; [by right | apply win_follows_refl]. }
  cbn [relay]. destruct (negb (alive sh n)).
  { intros [= <- <-]. split; [by left | apply win_follows_refl]. }
  destruct input as [|data input1].
  { intros [= <- <-]. split; [by left | apply win_follows_refl]. }
  destruct (Byte.eqb data ESC).
  - destruct (bytes_eqb _ _).
    + destruct (read_directive_cases fuel [] (drop 7 input1))
        as [(payload & rest & ->)| ->].
      2:{ intros [= <- <-]. split; [by right | apply win_follows_refl]. }
      destruct (apply_resize pty_set_size payload s) as [[[]|e|] s1] eqn:Happ;
        pose proof (apply_resize_follows _ _ _ _ Happ) as Hfol.
      * intros [Hr Hf]%IH. split; [done | by eapply win_follows_trans].
      * assert (forall code, e ≠ SystemExit code) as Hne.
        { intros code ->. revert Happ. unfold apply_resize, decode.
          destruct (strict_chars _) as [text|]; try done.
          destruct (split 59 (strip 59 text)) as [|p0 [|p1 [|]]]; try done.
          destruct (int_cases p0) as [[z0 ->]| ->]; cbn [mbind res_bind]; [|done].
          destruct (int_cases p1) as [[z1 ->]| ->]; cbn [mbind res_bind]; [|done].
          destruct (pty_set_size z0 z1) as [[]|e|] eqn:Hp; try done.
          destruct e; try done. intros [= -> _]. by apply Hset in Hp. }
        destruct e; try (intros [= <- <-]; split; [by left | done]).
        by destruct (Hne code).
      * intros [= <- <-]. split; [by right | done].
    + intros [Hr Hf]%IH. split; [done|].
      eapply win_follows_trans; [|exact Hf]. exists []. by rewrite app_nil_r.
  - intros [Hr Hf]%IH. split; [done|].
    eapply win_follows_trans; [|exact Hf]. exists []. by rewrite app_nil_r.
Qed.

(** X16. In [terminal_win.py], whatever the host input and whatever the
    shell did, when the main loop comes to an end the helper exits with
    status 0: every exception in the loop is turned into [break], and
    [sys.exit(0)] follows the loop. ([pty.set_size] is taken not to call
    [sys.exit] itself.) *)
Theorem win_exit_status_is_zero (fuel : nat) (input : bytes) (s : session) :
  (forall c r code, pty_set_size c r ≠ Raise (SystemExit code)) ->
  (main pty_set_size sh fuel input s).1 = Exited 0
  \/ (main pty_set_size sh fuel input s).1 = Stuck.
Proof.
  intros Hset. unfold main.
  destruct (relay pty_set_size sh fuel 0 input s) as [r s1] eqn:Hr.
  apply (relay_cases _ _ _ _ _ _ Hset) in Hr as [[-> | ->] _]; auto.
Qed.

(** Literal bytes and directives in the loop of the main thread. *)
Lemma relay_interleave (items : list (bytes * bytes * bytes)) :
  forall (seg0 : bytes) (fuel n : nat) (s : session),
    ascii (seg0 ++ literals items) -> ESC ∉ seg0 ++ literals items ->
    Forall (fun it => field it.1.1 /\ field it.1.2
                      /\ pty_set_size (decimal it.1.1) (decimal it.1.2) = Ok tt)
      items ->
    (length (seg0 ++ interleave items) < fuel)%nat ->
    (n + length (seg0 ++ interleave items) <= lifetime sh)%nat ->
    exists s',
      relay pty_set_size sh fuel n (seg0 ++ interleave items) s = (Ok tt, s')
      /\ size s' = List.last (sizes items) (size s)
      /\ applied s' = applied s ++ sizes items
      /\ pty_in s' = pty_in s ++ map Byte.to_N (seg0 ++ literals items).
Proof.
  induction items as [|[[cols rows] seg] items IH];
    intros seg0 fuel n s Ha He Hit Hf Hl.
  - cbn [interleave literals sizes map] in *. rewrite app_nil_r in *.
    rewrite relay_plain by done. eexists. split; [reflexivity|].
    cbn. by rewrite app_nil_r.
  - apply Forall_cons in Hit as [(Hc & Hr & Hset) Hit]. cbn [fst snd] in *.
    cbn [interleave literals] in *.
    rewrite !length_app, ScriptsFacts.directive_length in Hf, Hl.
    apply Forall_app in Ha as [Ha0 Ha]. apply not_elem_of_app in He as [He0 He].
    replace fuel with (length seg0 + S (fuel - length seg0 - 1))%nat by lia.
    rewrite relay_plain_then by (done || lia).
    rewrite relay_directive; [|unfold alive; apply Nat.ltb_lt; lia|done|done|lia|done].
    destruct (IH seg (fuel - length seg0 - 1)%nat (S (n + length seg0))
                (with_size (decimal cols, decimal rows)
                   (write_pty (map Byte.to_N seg0) s)) Ha He Hit)
      as (s' & -> & Hz & Hap & Hp).
    { rewrite length_app. lia. }
    { rewrite length_app. lia. }
    exists s'. split; [done|]. rewrite Hz, Hap, Hp.
    cbn [sizes map fst snd with_size write_pty size applied pty_in].
    fold (sizes items).
    rewrite last_cons_default, (map_app _ seg0), <- !app_assoc. done.
Qed.

(** X17. In [terminal_win.py], on host input made of ASCII bytes other
    than [ESC] and of well-formed directives that [pty.set_size] accepts,
    in any number and at any place, read while the shell lives: the size of
    the PTY ends as the pair of numbers that the last directive of the
    input carries, or as the size the PTY was created with when the input
    holds no directive; the sizes were set in the order of the directives,
    the PTY has received the literal bytes and nothing of the directives,
    and the helper exits with status 0. *)
Theorem win_size_follows_directives (seg0 : bytes)
    (items : list (bytes * bytes * bytes)) (fuel : nat) (cols rows : Z) :
  ascii (seg0 ++ literals items) -> ESC ∉ seg0 ++ literals items ->
  Forall (fun it => field it.1.1 /\ field it.1.2
                    /\ pty_set_size (decimal it.1.1) (decimal it.1.2) = Ok tt)
    items ->
  (length (seg0 ++ interleave items) < fuel)%nat ->
  (length (seg0 ++ interleave items) <= lifetime sh)%nat ->
  exists s',
    main pty_set_size sh fuel (seg0 ++ interleave items) (fresh cols rows)
    = (Exited 0, s')
    /\ size s' = List.last (sizes items) (cols, rows)
    /\ applied s' = sizes items
    /\ pty_in s' = map Byte.to_N (seg0 ++ literals items).
Proof.
  intros Ha He Hit Hf Hl. unfold main.
  destruct (relay_interleave items seg0 fuel 0 (fresh cols rows) Ha He Hit Hf Hl)
    as (s' & -> & Hz & Hap & Hp).
  by exists s'.
Qed.

(** X19. In [terminal_win.py], a directive whose payload is not valid
    UTF-8 ends the helper: [decode] raises outside the inner [try], the
    outer handler leaves the loop, and the process exits with status 0.
    The size is untouched and the input behind the directive is never
    read. *)
Theorem win_undecodable_directive_ends_helper (fuel : nat)
    (payload rest : bytes) (s : session) :
  (0 < lifetime sh)%nat -> BEL ∉ payload -> (length payload < fuel)%nat ->
  decode payload = Raise ValueError ->
  main pty_set_size sh (S fuel) (ESC :: b "]RESIZE" ++ payload ++ BEL :: rest) s
  = (Exited 0, s).
Proof.
  intros Hl Hb Hf Hd. unfold main.
  rewrite relay_introducer by (unfold alive; by apply Nat.ltb_lt).
  rewrite read_directive_bel by done. cbn [app].
  unfold apply_resize. by rewrite Hd.
Qed.

Lemma strip_text (cf rf : str) :
  cf ≠ [] -> rf ≠ [] -> 59%N ∉ cf -> 59%N ∉ rf ->
  strip 59 (59%N :: cf ++ 59%N :: rf) = cf ++ 59%N :: rf.
Proof.
  intros Hc0 Hr0 Hsc Hsr. unfold strip. cbn [lstrip]. rewrite N.eqb_refl.
  destruct cf as [|c0 cf]; [done|]. rewrite <- app_comm_cons.
  rewrite lstrip_head.
  2:{ intros Heq. apply Hsc. rewrite <- Heq. apply list_elem_of_here. }
  rewrite app_comm_cons, rev_app_distr. cbn [rev]. rewrite <- !app_assoc.
  destruct (rev rf) as [|r0 rrows] eqn:Hrev.
  { apply (f_equal length) in Hrev. rewrite length_rev in Hrev.
    destruct rf; [done | discriminate]. }
  rewrite <- app_comm_cons, lstrip_head.
  2:{ intros Heq. apply Hsr.
      rewrite <- Heq. apply list_elem_of_In, in_rev. rewrite Hrev. by left. }
  rewrite app_comm_cons, <- Hrev.
  rewrite !rev_app_distr, !rev_involutive. cbn [app rev].
  by rewrite <- app_assoc.
Qed.

(** X20. In [terminal_win.py], a directive with two non-empty ASCII
    fields of which one at least is no number for [int] is dropped: none
    of its bytes is written to the PTY, the size is as before, and the loop
    goes on with the input behind the terminator. *)
Theorem win_non_numeric_directive_dropped (fuel n : nat)
    (cf rf rest : bytes) (s : session) :
  alive sh n = true ->
  cf ≠ [] -> rf ≠ [] -> ascii cf -> ascii rf ->
  x3b ∉ cf -> x3b ∉ rf -> BEL ∉ cf -> BEL ∉ rf ->
  (length cf + length rf + 2 < fuel)%nat ->
  int (map Byte.to_N cf) = Raise ValueError
  \/ int (map Byte.to_N rf) = Raise ValueError ->
  relay pty_set_size sh (S fuel) n
    (ESC :: b "]RESIZE" ++ (x3b :: cf ++ [x3b] ++ rf) ++ BEL :: rest) s
  = relay pty_set_size sh fuel (S n) rest s.
Proof.
  intros Ha Hc0 Hr0 Hac Har Hsc Hsr Hbc Hbr Hfuel Hint.
  apply win_directive_consumed; try done.
  - apply not_elem_of_cons. split; [done|]. rewrite !not_elem_of_app.
    repeat split; try done.
    intros Hin. apply list_elem_of_singleton in Hin. discriminate.
  - cbn [length]. rewrite !length_app. cbn [length]. lia.
  - unfold apply_resize. rewrite decode_ascii.
    2:{ apply Forall_cons. split; [cbn; lia|]. apply Forall_app. split; [done|].
        apply Forall_cons. split; [cbn; lia | done]. }
    cbn [map]. rewrite map_app. cbn [map app]. change (Byte.to_N x3b) with 59%N.
    assert (Hno : forall l : bytes, x3b ∉ l -> 59%N ∉ map Byte.to_N l).
    { intros l Hl Hin. apply list_elem_of_fmap in Hin as (d & Hd & Hin).
      assert (d = x3b) as ->; [|done].
      apply (f_equal Byte.of_N) in Hd. rewrite Byte.of_to_N in Hd.
      by injection Hd as <-. }
    rewrite strip_text; [|by destruct cf|by destruct rf|auto|auto].
    rewrite split_two by auto.
    destruct (int_cases (map Byte.to_N cf)) as [[zc Hc]|Hc]; rewrite Hc;
      cbn [mbind res_bind]; [|done].
    destruct Hint as [Hi|Hi]; [congruence|]. by rewrite Hi.
Qed.

End WinMore.

(** X18. The filter of the Windows reader thread only drops bytes: what it
    lets through of a chunk of PTY output is a subsequence of the chunk,
    whatever the chunk. *)
Theorem win_filter_only_drops (output : Py.bytes) :
  TerminalWin.filter_output output `sublist_of` output.
Proof.
  assert (Hsub : forall m skip data, Py.re_sub m skip data `sublist_of` data).
  { intros m skip data. revert skip.
    induction data as [|d data IH]; intros skip; [done|].
    cbn [Py.re_sub]. destruct skip as [|k]; [|by apply sublist_cons].
    destruct (m (d :: data)) as [[|k]|];
      [by apply sublist_skip | by apply sublist_cons | by apply sublist_skip]. }
  unfold TerminalWin.filter_output.
  etrans; [apply Hsub|]. etrans; [apply Hsub|]. apply Hsub.
Qed.

Section MoreRuns.
Import Py Posix Wire Echo Startup Observe.

Ltac absent :=
  let Hin := fresh "Hin" in
  intros Hin;
  repeat (apply elem_of_cons in Hin as [Hin|Hin]; [discriminate|]);
  by apply elem_of_nil in Hin.

Ltac all_bytes :=
  repeat (apply Forall_cons; split; [reflexivity|]); apply Forall_nil_2.

Ltac is_field :=
  split; [discriminate|]; split; [all_bytes | cbv; lia].

Ltac is_short_field :=
  split; [is_field | cbv; discriminate].

Lemma stdin_forwarding_is_a_subsequence_witness :
  let t := stdin_turn (Returns (b "ab" ++ directive (b "100") (b "40") ++ b "cd"))
             StillRunning in
  exists data',
    pty_in (ScriptsPty.on_stdin (H:=latin1_db) t (fresh 0)).2
    = pty_in (fresh 0) ++ data'
    /\ data' `sublist_of` b "ab" ++ directive (b "100") (b "40") ++ b "cd"
    /\ host_out (ScriptsPty.on_stdin (H:=latin1_db) t (fresh 0)).2
       = host_out (fresh 0).
Proof.
  intros t.
  apply (stdin_forwarding_is_a_subsequence (H:=latin1_db) t
           (b "ab" ++ directive (b "100") (b "40") ++ b "cd") (fresh 0)
           (ScriptsPty.on_stdin (H:=latin1_db) t (fresh 0)).2
           (ScriptsPty.on_stdin (H:=latin1_db) t (fresh 0)).1).
  - reflexivity.
  - vm_compute. reflexivity.
Defined.

Lemma oversized_resize_ends_the_helper_witness :
  let t := {| t_select := Returns (true, true); t_read_pty := Returns (b "$ ");
              t_write_out := Returns tt;
              t_read_in := Returns ((ESC :: b "[A") ++ directive (b "70000") (b "40")
                                    ++ b "cd");
              t_ioctl := Returns tt; t_write_pty := Returns tt;
              t_waitpid := StillRunning |} in
  exists s1,
    ScriptsPty.main (H:=latin1_db) 80 24 (Returns tt) ([] ++ [t]) (fresh 0)
    = (Exited 1,
       set_stdin_flags (stdin_flags (fresh 0)) (write_host (relayed_output t) s1))
    /\ relayed_output t = b "$ ".
Proof.
  intros t. eexists. split; [|reflexivity].
  eapply (oversized_resize_ends_the_helper (H:=latin1_db) 80 24 (Returns tt) []
            t (fresh 0) _ true (ESC :: b "[A") (b "70000") (b "40") (b "cd")).
  - vm_compute. reflexivity.
  - reflexivity.
  - intros _. exists (b "$ "). split; [discriminate|]. split; reflexivity.
  - reflexivity.
  - vm_compute. reflexivity.
  - is_field.
  - is_field.
  - vm_compute. intros [Hc _]. by apply Hc.
Defined.

Lemma unterminated_directive_is_forwarded_witness :
  ScriptsPty.on_stdin (H:=latin1_db)
    (stdin_turn (Returns ((ESC :: b "[A") ++ RESIZE ++ b ";80;2")) StillRunning)
    (fresh 0)
  = (Ok true, write_pty ((ESC :: b "[A") ++ RESIZE ++ b ";80;2") (fresh 0)).
Proof.
  apply (unterminated_directive_is_forwarded (H:=latin1_db)).
  - reflexivity.
  - reflexivity.
  - vm_compute. reflexivity.
  - absent.
Defined.

Lemma signal_death_exit_status_witness :
  exists s,
    ScriptsPty.main (H:=latin1_db) 80 24 (Returns tt)
      ([] ++ [stdin_turn (Returns (b "kill -9 $$")) (Reaped 9)]) (fresh 0)
    = (Exited (256 - WTERMSIG 9), s)
    /\ (256 - WTERMSIG 9 = 247)%Z.
Proof.
  eexists. split; [|reflexivity].
  eapply (signal_death_exit_status (H:=latin1_db) 80 24 (Returns tt) []
            (stdin_turn (Returns (b "kill -9 $$")) (Reaped 9)) (fresh 0)
            _ _ (false, true) true 9).
  - reflexivity.
  - vm_compute. reflexivity.
  - reflexivity.
  - vm_compute. reflexivity.
  - reflexivity.
Defined.

Lemma host_output_in_order_witness :
  let out data :=
    {| t_select := Returns (true, false); t_read_pty := Returns data;
       t_write_out := Returns tt; t_read_in := Fails; t_ioctl := Returns tt;
       t_write_pty := Returns tt; t_waitpid := StillRunning |} in
  let ticks := [out (b "one"); out (ESC :: b "[I"); out []; out (b "two")] in
  host_out (ScriptsPty.loop (H:=latin1_db) ticks (fresh 0)).2
  = b "one" ++ ESC :: b "[I"
  /\ turns_run (H:=latin1_db) ticks (fresh 0) = 3%nat
  /\ (ScriptsPty.loop (H:=latin1_db) (take 2 ticks) (fresh 0)).1 = Pending.
Proof.
  intros out ticks.
  destruct (host_output_in_order (H:=latin1_db) ticks (fresh 0))
    as (Hout & _ & _ & Hbefore & _).
  split; [exact Hout|]. split; [reflexivity|].
  apply Hbefore. vm_compute. lia.
Defined.

Lemma quiet_end_has_a_cause_witness :
  let t := stdin_turn (Returns []) StillRunning in
  t_select t = Fails
  \/ t_waitpid t = NoChild
  \/ (t_waitpid t = StillRunning
      /\ exists r1 r2, t_select t = Returns (r1, r2)
          /\ ((r1 = true
               /\ (t_read_pty t = Returns [] \/ t_read_pty t = Fails
                   \/ t_write_out t = Fails))
              \/ (r2 = true
                  /\ (t_read_in t = Returns [] \/ t_read_in t = Fails
                      \/ t_write_pty t = Fails \/ t_ioctl t = Fails)))).
Proof.
  intros t.
  eapply (quiet_end_has_a_cause (H:=latin1_db) t (fresh 0) _).
  vm_compute. reflexivity.
Defined.

Lemma starts_at_the_size_of_argv_witness :
  exists s,
    program (H:=latin1_db)
      (map Byte.to_N (b "terminal_pty.py") :: map Byte.to_N (b "120")
       :: map Byte.to_N (b "40") :: map Byte.to_N (b "/bin/zsh")
       :: [map Byte.to_N (b "-l")])
      (Returns tt) [] (fresh 2) = (Running, s)
    /\ winsize s = (decimal (b "120"), decimal (b "40"))
    /\ applied s = [(decimal (b "120"), decimal (b "40"))]
    /\ stdin_flags s = Z.lor 2 O_NONBLOCK.
Proof.
  apply (starts_at_the_size_of_argv (H:=latin1_db)); is_short_field.
Defined.

Lemma refused_arguments_exit_one_witness :
  program (H:=latin1_db)
    [map Byte.to_N (b "terminal_pty.py"); map Byte.to_N (b "wide");
     map Byte.to_N (b "40"); map Byte.to_N (b "/bin/zsh")]
    (Returns tt) [stdin_turn (Returns (b "ls")) StillRunning] (fresh 2)
  = (Exited 1, fresh 2).
Proof.
  apply (refused_arguments_exit_one (H:=latin1_db)).
  right. eexists _, _, _, _. split; [reflexivity|].
  left. vm_compute. reflexivity.
Defined.

Lemma padded_fields_parse_witness :
  parse_payload (H:=latin1_db)
    ((b " " ++ b "80" ++ [x09]) ++ [x3b] ++ ([] ++ b "24" ++ [x0a; x20]))
  = Ok (decimal (b "80"), decimal (b "24")).
Proof.
  apply (padded_fields_parse (H:=latin1_db)).
  - all_bytes.
  - all_bytes.
  - all_bytes.
  - all_bytes.
  - is_field.
  - is_field.
Defined.

Lemma leading_directive_is_stripped_witness :
  exists s',
    TerminalPty.on_stdin (H:=latin1_db)
      (stdin_turn
         (Returns (directive (b "100") (b "40")
                   ++ b "ls" ++ directive (b "1") (b "2")))
         StillRunning) (fresh 0)
    = (Ok tt, s')
    /\ pty_in s' = pty_in (fresh 0) ++ b "ls" ++ directive (b "1") (b "2")
    /\ winsize s' = (decimal (b "100"), decimal (b "40"))
    /\ applied s' = applied (fresh 0) ++ [(decimal (b "100"), decimal (b "40"))].
Proof.
  apply (leading_directive_is_stripped (H:=latin1_db)).
  - reflexivity.
  - reflexivity.
  - reflexivity.
  - is_short_field.
  - is_short_field.
Defined.

Lemma terminal_pty_ways_out_witness :
  let t := stdin_turn (Returns (b "exit")) (Reaped 0) in
  (Raised (SystemExit 0) = Broke
   /\ (t_select t = Fails \/ t_waitpid t = NoChild))
  \/ (exists status, t_waitpid t = Reaped status)
  \/ Raised (SystemExit 0) = Raised StructError.
Proof.
  intros t.
  eapply (terminal_pty_ways_out (H:=latin1_db) t (fresh 0) _).
  vm_compute. reflexivity.
Defined.

Lemma posix_variants_agree_witness :
  ScriptsPty.strip_resize (H:=latin1_db) (Returns tt)
    (directive (b "100") (b "40") ++ b "ls") (fresh 0)
  = TerminalPty.strip_resize (H:=latin1_db) (Returns tt)
      (directive (b "100") (b "40") ++ b "ls") (fresh 0).
Proof.
  apply (posix_variants_agree (H:=latin1_db)).
  right. exists (b "100"), (b "40"), (b "ls").
  split; [reflexivity|]. split; [is_short_field|]. split; [is_short_field|].
  absent.
Defined.

Lemma win_directive_applied_witness :
  let sh := {| TerminalWin.exit_code := 0; TerminalWin.lifetime := 10 |} in
  TerminalWin.relay (H:=latin1_db) accept_all sh 10 0
    (directive (b "100") (b "40") ++ b "ls") (TerminalWin.fresh 80 24)
  = TerminalWin.relay (H:=latin1_db) accept_all sh 9 1 (b "ls")
      (TerminalWin.with_size (decimal (b "100"), decimal (b "40"))
         (TerminalWin.fresh 80 24)).
Proof.
  intros sh.
  apply (win_directive_applied (H:=latin1_db) accept_all sh 9 0).
  - reflexivity.
  - is_field.
  - is_field.
  - cbn. lia.
  - reflexivity.
Defined.

Lemma win_ascii_is_forwarded_witness :
  TerminalWin.main (H:=latin1_db) accept_all
    {| TerminalWin.exit_code := 0; TerminalWin.lifetime := 10 |} 10 (b "ls -l")
    (TerminalWin.fresh 80 24)
  = (Exited 0,
     TerminalWin.write_pty (map Byte.to_N (b "ls -l")) (TerminalWin.fresh 80 24)).
Proof.
  apply (win_ascii_is_forwarded (H:=latin1_db)).
  - all_bytes.
  - absent.
  - cbn. lia.
  - cbn. lia.
Defined.

Lemma win_escape_hides_directive_witness :
  let sh := {| TerminalWin.exit_code := 0; TerminalWin.lifetime := 100 |} in
  TerminalWin.relay (H:=latin1_db) accept_all sh
    (5 + length (b "100") + length (b "40") + 20) 3
    (ESC :: directive (b "100") (b "40") ++ directive (b "132") (b "50"))
    (TerminalWin.fresh 80 24)
  = TerminalWin.relay (H:=latin1_db) accept_all sh 20
      (3 + 5 + length (b "100") + length (b "40"))
      (directive (b "132") (b "50"))
      (TerminalWin.write_pty
         (map Byte.to_N (ESC :: directive (b "100") (b "40")))
         (TerminalWin.fresh 80 24)).
Proof.
  intros sh.
  apply (win_escape_hides_directive (H:=latin1_db) accept_all sh).
  - all_bytes.
  - all_bytes.
  - cbn. lia.
Defined.

Lemma win_exit_status_is_zero_witness :
  let sh := {| TerminalWin.exit_code := 3; TerminalWin.lifetime := 4 |} in
  (TerminalWin.main (H:=latin1_db) accept_all sh 50
     (b "ab" ++ directive (b "100") (b "40") ++ [xff] ++ b "exit 3")
     (TerminalWin.fresh 80 24)).1 = Exited 0
  \/ (TerminalWin.main (H:=latin1_db) accept_all sh 50
        (b "ab" ++ directive (b "100") (b "40") ++ [xff] ++ b "exit 3")
        (TerminalWin.fresh 80 24)).1 = Stuck.
Proof.
  intros sh.
  apply (win_exit_status_is_zero (H:=latin1_db) accept_all sh).
  intros c r code. discriminate.
Defined.

Lemma win_size_follows_directives_witness :
  let sh := {| TerminalWin.exit_code := 0; TerminalWin.lifetime := 50 |} in
  let items := [(b "100", b "40", b "cd"); (b "132", b "50", b "ef")] in
  exists s',
    TerminalWin.main (H:=latin1_db) accept_all sh 50 (b "ab" ++ interleave items)
      (TerminalWin.fresh 80 24)
    = (Exited 0, s')
    /\ TerminalWin.size s' = List.last (sizes items) (80, 24)%Z
    /\ TerminalWin.applied s' = sizes items
    /\ TerminalWin.pty_in s' = map Byte.to_N (b "ab" ++ literals items).
Proof.
  intros sh items.
  apply (win_size_follows_directives (H:=latin1_db) accept_all sh).
  - all_bytes.
  - absent.
  - repeat (apply Forall_cons; split;
            [split; [is_field|]; split; [is_field | reflexivity]|]).
    apply Forall_nil_2.
  - cbn. lia.
  - cbn. lia.
Defined.

Lemma win_undecodable_directive_ends_helper_witness :
  TerminalWin.main (H:=latin1_db) accept_all
    {| TerminalWin.exit_code := 0; TerminalWin.lifetime := 10 |} 10
    (ESC :: b "]RESIZE" ++ (b ";80;" ++ [xff]) ++ BEL :: b "ls")
    (TerminalWin.fresh 80 24)
  = (Exited 0, TerminalWin.fresh 80 24).
Proof.
  apply (win_undecodable_directive_ends_helper (H:=latin1_db) accept_all
           {| TerminalWin.exit_code := 0; TerminalWin.lifetime := 10 |} 9).
  - cbn. lia.
  - absent.
  - cbn. lia.
  - vm_compute. reflexivity.
Defined.

Lemma win_non_numeric_directive_dropped_witness :
  let sh := {| TerminalWin.exit_code := 0; TerminalWin.lifetime := 10 |} in
  TerminalWin.relay (H:=latin1_db) accept_all sh 10 0
    (ESC :: b "]RESIZE" ++ (x3b :: b "wide" ++ [x3b] ++ b "40") ++ BEL :: b "ls")
    (TerminalWin.fresh 80 24)
  = TerminalWin.relay (H:=latin1_db) accept_all sh 9 1 (b "ls")
      (TerminalWin.fresh 80 24).
Proof.
  intros sh.
  apply (win_non_numeric_directive_dropped (H:=latin1_db) accept_all sh 9 0).
  - reflexivity.
  - discriminate.
  - discriminate.
  - all_bytes.
  - all_bytes.
  - absent.
  - absent.
  - absent.
  - absent.
  - cbn. lia.
  - left. vm_compute. reflexivity.
Defined.

End MoreRuns.
